(** * monitoring.py: host monitoring report

    A shallow embedding of [monitoring.py]: the size formatter
    [sizeof_fmt], the table renderer [Module.make_table], the collectors
    [DiskModule.get_data] and [LogModule.get_data] with the base-name regular
    expression, and the aggregation loop of the [__main__] block.

    Conventions.
    - A Python [str] is a [string]; every character of the strings handled
      here fits one [ascii] (titles are Latin-1), so [String.length] is
      Python's [len].
    - A Python [int] is a [Z].  A Python [float] is a binary64 number, kept
      as an exact dyadic value [fm * 2 ^ fe]; every operation rounds to
      53 significant bits, to nearest, ties to even.  The exponent range is
      left unbounded: overflow and subnormal numbers, which need magnitudes
      beyond [2 ^ 1023] or below [2 ^ -1022], are outside the model.
    - A raised exception is the [Raise] branch of [result]. *)

From Stdlib Require Import ZArith List String Ascii Bool Lia.
From Stdlib Require Import DecimalString Permutation Sorted.
Import ListNotations.

Local Open Scope list_scope.
Local Open Scope string_scope.
Local Open Scope Z_scope.

(** ** Exceptions *)

Inductive exn : Type :=
| AssertionError
| UnboundLocalError (var : string)
| ZeroDivisionError
| OtherError (what : string).

Inductive result (A : Type) : Type :=
| Ok (a : A)
| Raise (e : exn).

Arguments Ok {A} a.
Arguments Raise {A} e.

Definition bind {A B : Type} (r : result A) (k : A -> result B) : result B :=
  match r with
  | Ok a => k a
  | Raise e => Raise e
  end.

Notation "'do' x <- r ; k" := (bind r (fun x => k))
  (at level 10, x name, r at level 100, k at level 200).

(** ** Strings *)

(** [str(n)] for an [int]. *)
Definition str_of_Z (n : Z) : string :=
  match n with
  | Zneg p => "-" ++ NilZero.string_of_uint (Pos.to_uint p)
  | _ => NilZero.string_of_uint (N.to_uint (Z.to_N n))
  end.

(** [s * n] *)
Fixpoint str_repeat (s : string) (n : nat) : string :=
  match n with
  | O => ""
  | S n' => s ++ str_repeat s n'
  end.

(** [sep.join(l)] *)
Fixpoint str_join (sep : string) (l : list string) : string :=
  match l with
  | [] => ""
  | [s] => s
  | s :: rest => s ++ sep ++ str_join sep rest
  end.

(** ["".join(l)] *)
Definition str_concat (l : list string) : string := fold_right String.append "" l.

Definition newline : string := String (ascii_of_nat 10) "".

(** [sum(l)] *)
Definition sum (l : list Z) : Z := fold_left Z.add l 0.

(** ** Binary64 arithmetic, as far as the program uses it *)

Module Float.

(** The value [fm * 2 ^ fe]. *)
Record t : Type := mk { fm : Z; fe : Z }.

(** Nearest integer to [n / d], ties to even ([0 <= n], [0 < d]). *)
Definition rne (n d : Z) : Z :=
  let q := n / d in
  let r := n mod d in
  if 2 * r <? d then q
  else if d <? 2 * r then q + 1
  else if Z.even q then q else q + 1.

(** The double nearest to the rational [p / q] ([0 < q]). *)
Definition round53 (p q : Z) : t :=
  if p =? 0 then mk 0 0
  else
    let a := Z.abs p in
    let e := Z.log2 a - Z.log2 q - 53 in
    let n := if e <? 0 then a * 2 ^ (- e) else a in
    let d := if e <? 0 then q else q * 2 ^ e in
    if n / d <? 2 ^ 53
    then mk (Z.sgn p * rne n d) e
    else mk (Z.sgn p * rne n (2 * d)) (e + 1).

(** [float(n)] *)
Definition of_int (n : Z) : t := round53 n 1.

(** The exact value as a fraction with a positive denominator. *)
Definition frac (x : t) : Z * Z :=
  if fe x <? 0 then (fm x, 2 ^ (- fe x)) else (fm x * 2 ^ fe x, 1).

(** [a / b] on two [int]s, [b] not zero: the correctly rounded quotient. *)
Definition int_truediv (a b : Z) : t :=
  if b <? 0 then round53 (- a) (- b) else round53 a b.

(** [x * 100] *)
Definition mul100 (x : t) : t :=
  let '(n, d) := frac x in round53 (n * 100) d.

(** [x / 1024.0]: a change of exponent, exact. *)
Definition div1024 (x : t) : t := mk (fm x) (fe x - 10).

(** [abs(x) < 1024.0] *)
Definition abs_lt_1024 (x : t) : bool :=
  let '(n, d) := frac x in Z.abs n <? 1024 * d.

(** Left-pad a digit string with zeros to [width] characters. *)
Definition zero_pad (width : nat) (s : string) : string :=
  str_repeat "0" (width - String.length s)%nat ++ s.

(** ["%.<prec>f" % x] for [1 <= prec]: the decimal with [prec] digits
    after the point nearest to the exact value of [x], ties to even. *)
Definition format_f (prec : nat) (x : t) : string :=
  let '(n, d) := frac x in
  let scale := 10 ^ Z.of_nat prec in
  let s := rne (Z.abs n * scale) d in
  (if n <? 0 then "-" else "")
    ++ str_of_Z (s / scale) ++ "." ++ zero_pad prec (str_of_Z (s mod scale)).

End Float.

(** A Python number: [sizeof_fmt] receives an [int] and rebinds [num] to a
    [float] at the first division. *)
Inductive number : Type :=
| PyInt (n : Z)
| PyFloat (x : Float.t).

Definition to_float (num : number) : Float.t :=
  match num with
  | PyInt n => Float.of_int n
  | PyFloat x => x
  end.

(** [abs(num) < 1024.0]; an [int] is compared exactly. *)
Definition abs_lt_1024 (num : number) : bool :=
  match num with
  | PyInt n => Z.abs n <? 1024
  | PyFloat x => Float.abs_lt_1024 x
  end.

(** [num / 1024.0] *)
Definition div_1024 (num : number) : number :=
  PyFloat (Float.div1024 (to_float num)).

(** ** sizeof_fmt *)

Definition units : list string := ["" ; "Ki" ; "Mi" ; "Gi" ; "Ti" ; "Pi" ; "Ei" ; "Zi"].

(** The [for unit in [...]] loop; the width [3] of ["%3.1f"] never pads,
    the shortest output having three characters. *)
Fixpoint sizeof_fmt_loop (us : list string) (num : number) (suffix : string) : string :=
  match us with
  | [] => Float.format_f 1 (to_float num) ++ "Yi" ++ suffix
  | unit :: us' =>
      if abs_lt_1024 num
      then Float.format_f 1 (to_float num) ++ " " ++ unit ++ suffix
      else sizeof_fmt_loop us' (div_1024 num) suffix
  end.

Definition sizeof_fmt_suffix (num : Z) (suffix : string) : string :=
  sizeof_fmt_loop units (PyInt num) suffix.

(** [sizeof_fmt(num)], with the default [suffix='B']. *)
Definition sizeof_fmt (num : Z) : string := sizeof_fmt_suffix num "B".

(** ["{:.2%}".format(a / b)] on two [int]s: the quotient is rounded to a
    double, multiplied by [100] in double arithmetic and printed with two
    decimals and a percent sign. *)
Definition percent (a b : Z) : string :=
  Float.format_f 2 (Float.mul100 (Float.int_truediv a b)) ++ "%".

Definition format_percent (a b : Z) : result string :=
  if b =? 0 then Raise ZeroDivisionError else Ok (percent a b).

(** ** Tables: [Module.make_table] *)

(** A cell of a row: what the collectors put in their lists. *)
Inductive cell : Type :=
| CNone
| CStr (s : string)
| CInt (n : Z).

Definition row : Type := list cell.

(** [str(item)], which is also what ["{}".format(item)] inserts. *)
Definition str (item : cell) : string :=
  match item with
  | CNone => "None"
  | CStr s => s
  | CInt n => str_of_Z n
  end.

(** [for header in cls.headers: body += ...; plain += ...] *)
Fixpoint render_headers (headers : list string) (body plain : string) : string * string :=
  match headers with
  | [] => (body, plain)
  | header :: headers' =>
      render_headers headers' (body ++ "<th>" ++ header ++ "</th>") (plain ++ header ++ ", ")
  end.

(** [for item in line: body += ...; plain += ...] *)
Fixpoint render_items (line : row) (body plain : string) : string * string :=
  match line with
  | [] => (body, plain)
  | item :: line' =>
      render_items line' (body ++ "<td>" ++ str item ++ "</td>") (plain ++ str item ++ ", ")
  end.

(** [for line in data: assert len(line) == len(cls.headers); ...] *)
Fixpoint render_lines (headers : list string) (data : list row) (body plain : string)
  : result (string * string) :=
  match data with
  | [] => Ok (body, plain)
  | line :: data' =>
      if Nat.eqb (List.length line) (List.length headers)
      then
        let '(body1, plain1) := render_items line (body ++ "<tr>") plain in
        render_lines headers data' (body1 ++ "</tr>") (plain1 ++ newline)
      else Raise AssertionError
  end.

(** [make_table(cls, data)], with the class attributes [cls.title] and
    [cls.headers] as arguments. *)
Definition make_table (title : string) (headers : list string) (data : list row)
  : result (string * string) :=
  let body := "<h1>" ++ title ++ "</h1>" in
  let plain := title ++ newline ++ str_repeat "=" (String.length title) ++ newline in
  let body := body ++ "<table><thead><tr>" in
  let '(body, plain) := render_headers headers body plain in
  let body := body ++ "</tr></thead><tbody>" in
  let plain := plain ++ newline in
  do bp <- render_lines headers data body plain;
  Ok (fst bp ++ "</tbody></table>", snd bp ++ newline).

(** The plain rendering as the specification words it: a title line, the
    underline, the header cells joined by [", "], one line per row of its
    cells joined by [", "], and a blank line. *)
Definition plain_as_specified (title : string) (headers : list string) (data : list row)
  : string :=
  title ++ newline ++ str_repeat "=" (String.length title) ++ newline
    ++ str_join ", " headers ++ newline
    ++ str_concat (map (fun line => str_join ", " (map str line) ++ newline) data)
    ++ newline.

(** ** Regular expressions, as far as [get_base_name] needs them

    A backtracking matcher in continuation-passing style, with Python's
    order of alternatives: a star and an optional part are greedy and give
    back on failure; captured groups are numbered from [1]. *)

Module Re.

Inductive atom : Type :=
| Lit (c : ascii)
| Dot
| Range (lo hi : ascii).

Inductive regex : Type :=
| Eps
| Atom (a : atom)
| Star (a : atom)
| Opt (r : regex)
| Seq (r1 r2 : regex)
| Group (n : nat) (r : regex).

Definition groups : Type := list (option string).

Definition atom_matches (a : atom) (c : ascii) : bool :=
  match a with
  | Lit c' => Ascii.eqb c c'
  | Dot => negb (Ascii.eqb c (ascii_of_nat 10))
  | Range lo hi => (nat_of_ascii lo <=? nat_of_ascii c)%nat && (nat_of_ascii c <=? nat_of_ascii hi)%nat
  end.

Fixpoint set_group (n : nat) (v : string) (gs : groups) : groups :=
  match n, gs with
  | _, [] => []
  | O, g :: gs' => g :: gs'
  | S O, _ :: gs' => Some v :: gs'
  | S n', g :: gs' => g :: set_group n' v gs'
  end.

(** The part of [s] consumed when [rest] is what remains of it. *)
Definition consumed (s rest : string) : string :=
  substring 0 (String.length s - String.length rest) s.

Fixpoint run (r : regex) (s : string) (gs : groups)
  (k : string -> groups -> option groups) {struct r} : option groups :=
  match r with
  | Eps => k s gs
  | Atom a =>
      match s with
      | String c s' => if atom_matches a c then k s' gs else None
      | EmptyString => None
      end
  | Star a =>
      (fix star (s : string) : option groups :=
         match s with
         | String c s' =>
             if atom_matches a c
             then match star s' with
                  | Some gs' => Some gs'
                  | None => k s gs
                  end
             else k s gs
         | EmptyString => k s gs
         end) s
  | Opt r1 =>
      match run r1 s gs k with
      | Some gs' => Some gs'
      | None => k s gs
      end
  | Seq r1 r2 => run r1 s gs (fun s' gs' => run r2 s' gs' k)
  | Group n r1 => run r1 s gs (fun s' gs' => k s' (set_group n (consumed s s') gs'))
  end.

Fixpoint count_groups (r : regex) : nat :=
  match r with
  | Eps | Atom _ | Star _ => O
  | Opt r1 => count_groups r1
  | Seq r1 r2 => (count_groups r1 + count_groups r2)%nat
  | Group _ r1 => S (count_groups r1)
  end.

(** [re.match(r, s)]: anchored at the start only; the result is
    [m.groups()]. *)
Definition match_ (r : regex) (s : string) : option groups :=
  run r s (repeat None (count_groups r)) (fun _ gs => Some gs).

(** Concatenation of a list of expressions, and a literal text. *)
Definition cat (rs : list regex) : regex := fold_right Seq Eps rs.

Definition text (s : string) : regex :=
  cat (map (fun c => Atom (Lit c)) (list_ascii_of_string s)).

End Re.

(** ** LogModule *)

Module LogModule.

Definition title : string := "Fichiers logs".
Definition headers : list string := ["Nom" ; "Nombre de fichiers" ; "Taille"].
Definition MAX_ENTRIES : nat := 10.
Definition MIN_SIZE : Z := 1000.

(** The pattern of the source: group 1, any characters, as many as
    possible; one character; [log]; then three optional groups: a dot
    and a digit, [.gz], [.bz2].  The dot before [log] is not escaped in
    the source and stands for any character but a newline. *)
Definition reg : Re.regex :=
  Re.cat [ Re.Group 1 (Re.Star Re.Dot) ;
           Re.Atom Re.Dot ; Re.text "log" ;
           Re.Opt (Re.Group 2 (Re.cat [Re.text "." ; Re.Atom (Re.Range "0" "9")])) ;
           Re.Opt (Re.Group 3 (Re.text ".gz")) ;
           Re.Opt (Re.Group 4 (Re.text ".bz2")) ].

(** [result and result.groups()[0]]: [None] when nothing matches. *)
Definition get_base_name (filename : string) : option string :=
  match Re.match_ reg filename with
  | Some gs => nth 0 gs None
  | None => None
  end.

(** An entry of [os.scandir(log_path)]. *)
Record DirEntry : Type := { name : string; is_file : bool; st_size : Z }.

(** A value of [logs]: [dict(total_size=..., file_number=...)]. *)
Record info : Type := { total_size : Z; file_number : Z }.

(** [logs]: a [dict] keeps its keys in insertion order; a key is a base
    name or [None]. *)
Definition key : Type := option string.
Definition dict : Type := list (key * info).

Definition key_eqb (a b : key) : bool :=
  match a, b with
  | None, None => true
  | Some x, Some y => String.eqb x y
  | _, _ => false
  end.

(** [logs.get(k)] *)
Fixpoint dict_get (k : key) (logs : dict) : option info :=
  match logs with
  | [] => None
  | (k', v) :: logs' => if key_eqb k k' then Some v else dict_get k logs'
  end.

(** [logs[k] = v]: a new key goes last, a known key keeps its place. *)
Fixpoint dict_set (k : key) (v : info) (logs : dict) : dict :=
  match logs with
  | [] => [(k, v)]
  | (k', v') :: logs' =>
      if key_eqb k k' then (k', v) :: logs' else (k', v') :: dict_set k v logs'
  end.

(** [logs[k]['total_size'] += size; logs[k]['file_number'] += 1], on the
    value stored under [k]. *)
Fixpoint dict_add (k : key) (size : Z) (logs : dict) : dict :=
  match logs with
  | [] => []
  | (k', v) :: logs' =>
      if key_eqb k k'
      then (k', {| total_size := total_size v + size;
                   file_number := file_number v + 1 |}) :: logs'
      else (k', v) :: dict_add k size logs'
  end.

(** The body of [for file in log_files].  A stored value is a dictionary
    of two entries, hence truthy: [not logs.get(basename)] holds exactly
    when the key is missing. *)
Definition scan_file (logs : dict) (file : DirEntry) : dict :=
  if is_file file then
    let basename := get_base_name (name file) in
    let logs1 :=
      match dict_get basename logs with
      | Some _ => logs
      | None => dict_set basename {| total_size := 0; file_number := 0 |} logs
      end in
    dict_add basename (st_size file) logs1
  else logs.

(** An element of [data]: the list [[logname, file_number, total_size]]. *)
Record item : Type := { logname : key; number : Z; size : Z }.

Definition item_of (kv : key * info) : item :=
  {| logname := fst kv; number := file_number (snd kv); size := total_size (snd kv) |}.

(** [sorted(data, key=itemgetter(2))]: ascending and stable. *)
Fixpoint insert (x : item) (l : list item) : list item :=
  match l with
  | [] => [x]
  | y :: l' => if size x <=? size y then x :: y :: l' else y :: insert x l'
  end.

Fixpoint sorted (data : list item) : list item :=
  match data with
  | [] => []
  | x :: data' => insert x (sorted data')
  end.

Definition cell_of_key (k : key) : cell :=
  match k with
  | Some s => CStr s
  | None => CNone
  end.

(** [new_item]: the copy of [item] with its size humanized. *)
Definition display (it : item) : row :=
  [cell_of_key (logname it) ; CInt (number it) ; CStr (sizeof_fmt (size it))].

(** [for item in data: ...] with its [continue] and its [break]. *)
Fixpoint select (max_entries : nat) (min_size : Z) (data : list item)
  (final_data : list row) : list row :=
  match data with
  | [] => final_data
  | it :: data' =>
      if size it <? min_size then select max_entries min_size data' final_data
      else if (max_entries <=? List.length final_data)%nat then final_data
      else select max_entries min_size data' (final_data ++ [display it])%list
  end.

(** The dictionary [logs] after the scan. *)
Definition scan (log_files : list DirEntry) : dict :=
  fold_left scan_file log_files [].

(** [data] after [list(reversed(sorted(data, key=itemgetter(2))))]. *)
Definition ranked (log_files : list DirEntry) : list item :=
  rev (sorted (map item_of (scan log_files))).

Definition total_row (data : list item) : row :=
  [CStr "Total" ; CInt (sum (map number data)) ; CStr (sizeof_fmt (sum (map size data)))].

(** [get_data()], on the listing of [log_path] and with the class
    attributes [MAX_ENTRIES] and [MIN_SIZE] as arguments. *)
Definition get_data_with (max_entries : nat) (min_size : Z) (log_files : list DirEntry)
  : list row :=
  let data := ranked log_files in
  let final_data := select max_entries min_size data [] in
  (final_data ++ [total_row data])%list.

Definition get_data (log_files : list DirEntry) : list row :=
  get_data_with MAX_ENTRIES MIN_SIZE log_files.

End LogModule.

(** ** DiskModule *)

Module DiskModule.

Definition title : string := "Espace disque".
Definition headers : list string := ["Partition" ; "Used" ; "Total" ; "Percent"].

(** The result of [shutil.disk_usage(part)]. *)
Record usage : Type := { total : Z; used : Z; free : Z }.

(** The locals of [get_data]; [disk_usage] is unbound until the loop
    body runs. *)
Record locals : Type :=
  { data : list row; used_sum : Z; disk_usage : option usage }.

(** [for part in DISK_PARTITIONS: ...] *)
Fixpoint loop (query : string -> usage) (parts : list string) (st : locals)
  : result locals :=
  match parts with
  | [] => Ok st
  | part :: parts' =>
      let du := query part in
      let used1 := used_sum st + used du in
      do pct <- format_percent (used du) (total du);
      loop query parts'
        {| data := (data st ++ [[CStr part ; CStr (sizeof_fmt (used du)) ; CStr "" ; CStr pct]])%list;
           used_sum := used1;
           disk_usage := Some du |}
  end.

(** [get_data()], on the configured partitions and the file system's
    answers. *)
Definition get_data (query : string -> usage) (DISK_PARTITIONS : list string)
  : result (list row) :=
  do st <- loop query DISK_PARTITIONS {| data := []; used_sum := 0; disk_usage := None |};
  match disk_usage st with
  | None => Raise (UnboundLocalError "disk_usage")
  | Some du =>
      do pct <- format_percent (used_sum st) (total du);
      Ok (data st ++ [[CStr "TOTAL" ; CStr (sizeof_fmt (used_sum st)) ;
                       CStr (sizeof_fmt (total du)) ; CStr pct]])%list
  end.

End DiskModule.

(** ** The aggregation loop *)

(** A subclass of [Module] with its class attributes; [get_data] is the
    outcome of the call [module.get_data()] in the run at hand. *)
Record ModuleClass : Type :=
  { title : string;
    headers : list string;
    platforms : list string;
    get_data : result (list row) }.

(** What a run does, tagged with the position in [MODULES] of the module
    the loop is at: a call of [get_data()], a line printed. *)
Inductive event : Type :=
| EvGetData (i : nat)
| EvPrint (i : nat) (line : string).

(** How the loop ends: with [body] and [plain], which the program then
    prints, attaches and sends, or with the exception that went through. *)
Inductive outcome : Type :=
| Completed (body plain : string)
| Aborted (e : exn).

(** [sys.platform in module.platforms] *)
Definition supported (platform : string) (module : ModuleClass) : bool :=
  existsb (String.eqb platform) (platforms module).

(** ["[{}] module not supported on {}".format(module.title, sys.platform)] *)
Definition skip_notice (module : ModuleClass) (platform : string) : string :=
  "[" ++ title module ++ "] module not supported on " ++ platform.

(** [for module in MODULES: ...], from position [i] on. *)
Fixpoint loop (platform : string) (i : nat) (modules : list ModuleClass)
  (body plain : string) (trace : list event) : list event * outcome :=
  match modules with
  | [] => (trace, Completed body plain)
  | module :: modules' =>
      if supported platform module then
        let trace1 := (trace ++ [EvGetData i])%list in
        match get_data module with
        | Raise e => (trace1, Aborted e)
        | Ok data =>
            match make_table (title module) (headers module) data with
            | Raise e => (trace1, Aborted e)
            | Ok (_body, _plain) =>
                loop platform (S i) modules' (body ++ _body) (plain ++ _plain) trace1
            end
        end
      else
        loop platform (S i) modules' body plain
          (trace ++ [EvPrint i (skip_notice module platform)])%list
  end.

(** The [__main__] block up to the end of the loop. *)
Definition main (platform : string) (MODULES : list ModuleClass) : list event * outcome :=
  loop platform 0 MODULES "" "" [].

(** The three subclasses, in the order of their definition, which is the
    order of [Module.__subclasses__()].  [AptModule.get_data] goes through
    the [apt] package: its outcome is taken as given. *)
Record environment : Type :=
  { DISK_PARTITIONS : list string;
    disk_query : string -> DiskModule.usage;
    apt_outcome : result (list row);
    log_files : list LogModule.DirEntry }.

Definition a_grave : string := String (ascii_of_nat 224) "".
Definition e_acute : string := String (ascii_of_nat 233) "".

Definition DiskModule_class (env : environment) : ModuleClass :=
  {| title := DiskModule.title;
     headers := DiskModule.headers;
     platforms := ["linux" ; "darwin"];
     get_data := DiskModule.get_data (disk_query env) (DISK_PARTITIONS env) |}.

Definition AptModule_class (env : environment) : ModuleClass :=
  {| title := "Mises " ++ a_grave ++ " jour";
     headers := ["Nom" ; "Install" ++ e_acute ; "Disponible"];
     platforms := ["linux"];
     get_data := apt_outcome env |}.

Definition LogModule_class (env : environment) : ModuleClass :=
  {| title := LogModule.title;
     headers := LogModule.headers;
     platforms := ["linux" ; "darwin"];
     get_data := Ok (LogModule.get_data (log_files env)) |}.

Definition MODULES (env : environment) : list ModuleClass :=
  [DiskModule_class env ; AptModule_class env ; LogModule_class env].

(** ** Notions used by the statements *)

(** A line of cells as [make_table] writes it: every cell, the last one
    too, is followed by [", "]. *)
Definition cells_line (cells : list string) : string :=
  str_concat (map (fun c => c ++ ", ") cells).

(** [s] occurs in [t]. *)
Definition occurs_in (s t : string) : Prop :=
  exists pre post, t = pre ++ s ++ post.

(** The rendered table of a module whose collection and rendering succeed. *)
Definition section_of (module : ModuleClass) : option (string * string) :=
  match get_data module with
  | Ok data =>
      match make_table (title module) (headers module) data with
      | Ok bp => Some bp
      | Raise _ => None
      end
  | Raise _ => None
  end.

Definition index_of (ev : event) : nat :=
  match ev with
  | EvGetData i => i
  | EvPrint i _ => i
  end.

(** What the run did while the loop was at position [i]. *)
Definition events_at (i : nat) (trace : list event) : list event :=
  filter (fun ev => Nat.eqb (index_of ev) i) trace.

(** The one thing the loop does for a module it reaches and gets past. *)
Definition gate_event (platform : string) (i : nat) (module : ModuleClass) : event :=
  if supported platform module
  then EvGetData i
  else EvPrint i (skip_notice module platform).

Fixpoint gate_events (platform : string) (i : nat) (modules : list ModuleClass) : list event :=
  match modules with
  | [] => []
  | module :: modules' => gate_event platform i module :: gate_events platform (S i) modules'
  end.

(** Failure isolation as the specification words it: the run ends with a
    body and a plain text in which the section of every applicable module
    that can be collected occurs, whatever the other modules do. *)
Definition failure_isolated (platform : string) (modules : list ModuleClass) : Prop :=
  exists body plain,
    snd (main platform modules) = Completed body plain /\
    forall module b p,
      In module modules ->
      supported platform module = true ->
      section_of module = Some (b, p) ->
      occurs_in b body /\ occurs_in p plain.

(** Platform gating as the specification words it: for the module at each
    position the run has exactly one event, the call of [get_data()] when
    the platform is supported and the skip notice when it is not. *)
Definition platform_gated (platform : string) (modules : list ModuleClass) : Prop :=
  forall i module,
    nth_error modules i = Some module ->
    events_at i (fst (main platform modules)) = [gate_event platform i module].

(** Descending by total size, the order of [data] after the sort. *)
Definition larger_first (a b : LogModule.item) : Prop :=
  LogModule.size b <= LogModule.size a.

(** The regular files of a listing whose base name is [k]. *)
Definition files_of (k : LogModule.key) (files : list LogModule.DirEntry)
  : list LogModule.DirEntry :=
  filter (fun f => LogModule.is_file f
                   && LogModule.key_eqb (LogModule.get_base_name (LogModule.name f)) k)
         files.

(** The entry of a group that has the files [fs]: none without a file. *)
Definition group_info (fs : list LogModule.DirEntry) : option LogModule.info :=
  match fs with
  | [] => None
  | _ :: _ => Some {| LogModule.total_size := sum (map LogModule.st_size fs);
                      LogModule.file_number := Z.of_nat (List.length fs) |}
  end.

(** The directory of [LogModuleTest.setUp]: nine rotated files of 400,
    800, ..., 3600 bytes and the three bytes of [logfile.log]. *)
Definition logs_test : list LogModule.DirEntry :=
  (map (fun i => {| LogModule.name := "logfile.log." ++ str_of_Z i ++ ".gz";
                    LogModule.is_file := true;
                    LogModule.st_size := 4 * i * 100 |})
       [1 ; 2 ; 3 ; 4 ; 5 ; 6 ; 7 ; 8 ; 9]
   ++ [{| LogModule.name := "logfile.log";
          LogModule.is_file := true;
          LogModule.st_size := 3 |}])%list.

(** A directory of thirteen one-file groups of 0, 1000, ..., 12000 bytes. *)
Definition thirteen_logs : list LogModule.DirEntry :=
  map (fun i => {| LogModule.name := "app" ++ str_of_Z i ++ ".log";
                   LogModule.is_file := true;
                   LogModule.st_size := 1000 * i |})
      [0 ; 1 ; 2 ; 3 ; 4 ; 5 ; 6 ; 7 ; 8 ; 9 ; 10 ; 11 ; 12].

(** The row of one partition in [DiskModule.get_data]. *)
Definition partition_row (query : string -> DiskModule.usage) (part : string) : row :=
  [CStr part ;
   CStr (sizeof_fmt (DiskModule.used (query part))) ;
   CStr "" ;
   CStr (percent (DiskModule.used (query part)) (DiskModule.total (query part)))].

(** Two partitions: a root of 1000000 bytes, a quarter used, and a home
    of 3000 bytes, a third used. *)
Definition two_disks (part : string) : DiskModule.usage :=
  if String.eqb part "/"
  then {| DiskModule.total := 1000000; DiskModule.used := 250000; DiskModule.free := 750000 |}
  else {| DiskModule.total := 3000; DiskModule.used := 1000; DiskModule.free := 2000 |}.

(** A host whose configuration lists no partition; the [apt] cache and
    the log directory are empty. *)
Definition no_partition_host : environment :=
  {| DISK_PARTITIONS := [];
     disk_query := two_disks;
     apt_outcome := Ok [];
     log_files := [] |}.

(** A host with two partitions, on which the [apt] package is missing. *)
Definition no_apt_host : environment :=
  {| DISK_PARTITIONS := ["/" ; "/home"];
     disk_query := two_disks;
     apt_outcome := Raise (OtherError "AttributeError");
     log_files := thirteen_logs |}.

(** The markup [make_table] writes for the header cells, for the cells of
    a row and for the rows. *)
Definition th_cells (hs : list string) : string :=
  str_concat (map (fun h => "<th>" ++ h ++ "</th>") hs).

Definition td_cells (line : row) : string :=
  str_concat (map (fun item => "<td>" ++ str item ++ "</td>") line).

Definition tr_rows (data : list row) : string :=
  str_concat (map (fun line => "<tr>" ++ td_cells line ++ "</tr>") data).

(** The sections of the modules the platform supports, in the order of
    the modules. *)
Definition supported_sections (platform : string) (modules : list ModuleClass)
  : list (option (string * string)) :=
  map section_of (filter (supported platform) modules).

(** A module, in the manner of the three of the program, whose
    [get_data()] returns a row shorter than its headers. *)
Definition short_row_module : ModuleClass :=
  {| title := "Swap";
     headers := ["Device" ; "Used"];
     platforms := ["linux" ; "darwin"];
     get_data := Ok [[CStr "/dev/sda2"]] |}.

(** The pattern of [get_base_name] after its first group: one character
    and [log], then the three optional groups. *)
Definition rotation_re : Re.regex :=
  Re.cat [ Re.Opt (Re.Group 2 (Re.cat [Re.text "." ; Re.Atom (Re.Range "0" "9")])) ;
           Re.Opt (Re.Group 3 (Re.text ".gz")) ;
           Re.Opt (Re.Group 4 (Re.text ".bz2")) ].

Definition dot_log_re : Re.regex :=
  Re.Seq (Re.Atom Re.Dot) (Re.Seq (Re.text "log") rotation_re).

(** An expression that matches the empty text. *)
Fixpoint nullable (r : Re.regex) : bool :=
  match r with
  | Re.Eps | Re.Star _ | Re.Opt _ => true
  | Re.Atom _ => false
  | Re.Seq r1 r2 => nullable r1 && nullable r2
  | Re.Group _ r1 => nullable r1
  end.

(** An expression without the group 1. *)
Fixpoint keeps_first (r : Re.regex) : bool :=
  match r with
  | Re.Eps | Re.Atom _ | Re.Star _ => true
  | Re.Opt r1 => keeps_first r1
  | Re.Seq r1 r2 => keeps_first r1 && keeps_first r2
  | Re.Group n r1 => (2 <=? n)%nat && keeps_first r1
  end.

(** A text without a newline. *)
Fixpoint one_line (s : string) : bool :=
  match s with
  | EmptyString => true
  | String c s' => negb (Ascii.eqb c (ascii_of_nat 10)) && one_line s'
  end.

(** A text that starts with a character other than a newline and then
    [log]. *)
Definition log_at (s : string) : bool :=
  match s with
  | String c (String c1 (String c2 (String c3 _))) =>
      negb (Ascii.eqb c (ascii_of_nat 10))
      && Ascii.eqb c1 "l" && Ascii.eqb c2 "o" && Ascii.eqb c3 "g"
  | _ => false
  end.

(** The last place of the first line of [s] at which [log_at] holds, as
    the text from that place on. *)
Fixpoint last_log (s : string) : option string :=
  match s with
  | EmptyString => None
  | String c s' =>
      if negb (Ascii.eqb c (ascii_of_nat 10))
      then match last_log s' with
           | Some t => Some t
           | None => if log_at s then Some s else None
           end
      else None
  end.

(** [log_at] holds somewhere in [s]. *)
Fixpoint any_log_at (s : string) : bool :=
  log_at s ||
  match s with
  | EmptyString => false
  | String _ s' => any_log_at s'
  end.

(** What the three optional groups of the pattern can match: a dot and a
    digit or nothing, then [.gz] or nothing, then [.bz2] or nothing. *)
Definition rotation_suffixes : list string :=
  flat_map (fun digit =>
    flat_map (fun gz =>
      map (fun bz2 => digit ++ gz ++ bz2) ["" ; ".bz2"])
      ["" ; ".gz"])
    ("" :: map (fun d => "." ++ String d "")
               (list_ascii_of_string "0123456789")).

(** The integers from [-1023] to [1023]. *)
Definition below_one_kib : list Z :=
  map (fun k => Z.of_nat k - 1023) (seq 0 2047).

(** A number of tenths printed with one decimal. *)
Definition one_decimal (tenths : Z) : string :=
  str_of_Z (tenths / 10) ++ "." ++ str_of_Z (tenths mod 10).

(** * Properties *)

(** ** Strings and sums *)

Lemma append_nil_r (s : string) : s ++ "" = s.
Proof. induction s as [|c s IH]; simpl; [reflexivity | now rewrite IH]. Qed.

Lemma append_assoc (s t u : string) : (s ++ t) ++ u = s ++ t ++ u.
Proof. induction s as [|c s IH]; simpl; [reflexivity | now rewrite IH]. Qed.

Lemma str_concat_app (l1 l2 : list string) :
  str_concat (l1 ++ l2)%list = str_concat l1 ++ str_concat l2.
Proof.
  induction l1 as [|s l1 IH]; simpl; [reflexivity|].
  now rewrite IH, append_assoc.
Qed.

Lemma fold_left_add_shift (l : list Z) (a : Z) :
  fold_left Z.add l a = a + fold_left Z.add l 0.
Proof.
  revert a; induction l as [|x l IH]; intros a; simpl; [lia|].
  rewrite (IH (a + x)), (IH x); lia.
Qed.

Lemma sum_nil : sum [] = 0.
Proof. reflexivity. Qed.

Lemma sum_cons (x : Z) (l : list Z) : sum (x :: l) = x + sum l.
Proof. unfold sum; simpl; now rewrite fold_left_add_shift. Qed.

Lemma sum_app (l1 l2 : list Z) : sum (l1 ++ l2)%list = sum l1 + sum l2.
Proof.
  induction l1 as [|x l1 IH].
  - reflexivity.
  - simpl app. rewrite !sum_cons, IH; lia.
Qed.

Lemma sum_permutation (l1 l2 : list Z) : Permutation l1 l2 -> sum l1 = sum l2.
Proof.
  induction 1 as [| x l l' _ IH | x y l | l l' l'' _ IH1 _ IH2].
  - reflexivity.
  - now rewrite !sum_cons, IH.
  - rewrite !sum_cons; lia.
  - now rewrite IH1.
Qed.

(** ** sizeof_fmt and get_base_name on the reference inputs *)

(** C6: [sizeof_fmt], the size formatter, gives ["0.0 B"] for [0],
    ["1.0 KiB"] for [1024] and ["1.0 MiB"] for [1024 * 1024]: one decimal,
    one division by 1024 per unit. *)
Theorem sizeof_fmt_reference_values :
  sizeof_fmt 0 = "0.0 B" /\
  sizeof_fmt 1024 = "1.0 KiB" /\
  sizeof_fmt (1024 * 1024) = "1.0 MiB".
Proof. repeat split; vm_compute; reflexivity. Qed.

(** C4: [get_base_name] on the four file names of [test_get_base_name];
    the prefix may hold dots. *)
Theorem get_base_name_reference_values :
  LogModule.get_base_name "fsck_apfs_error.log" = Some "fsck_apfs_error" /\
  LogModule.get_base_name "fsck_apfs_error.log.gz" = Some "fsck_apfs_error" /\
  LogModule.get_base_name "fsck_apfs_error.log.8.bz2" = Some "fsck_apfs_error" /\
  LogModule.get_base_name "fsck.apfs_error.log.3.gz" = Some "fsck.apfs_error".
Proof. repeat split; vm_compute; reflexivity. Qed.

(** Every unit in turn; past [Zi] the number is printed without a space. *)
Lemma sizeof_fmt_unit_steps :
  map (fun k => sizeof_fmt (1024 ^ k)) [0 ; 1 ; 2 ; 3 ; 4 ; 5 ; 6 ; 7 ; 8 ; 9]
  = ["1.0 B" ; "1.0 KiB" ; "1.0 MiB" ; "1.0 GiB" ; "1.0 TiB" ; "1.0 PiB" ;
     "1.0 EiB" ; "1.0 ZiB" ; "1.0YiB" ; "1024.0YiB"].
Proof. vm_compute; reflexivity. Qed.

(** ** make_table *)

Lemma render_headers_plain (hs : list string) (body plain : string) :
  snd (render_headers hs body plain) = plain ++ cells_line hs.
Proof.
  revert body plain; induction hs as [|h hs IH]; intros body plain; simpl.
  - now rewrite append_nil_r.
  - rewrite IH. unfold cells_line; simpl. now rewrite !append_assoc.
Qed.

Lemma render_items_plain (line : row) (body plain : string) :
  snd (render_items line body plain) = plain ++ cells_line (map str line).
Proof.
  revert body plain; induction line as [|c line IH]; intros body plain; simpl.
  - now rewrite append_nil_r.
  - rewrite IH. unfold cells_line; simpl. now rewrite !append_assoc.
Qed.

Lemma render_lines_ok (hs : list string) (data : list row) (body plain : string) :
  Forall (fun line => List.length line = List.length hs) data ->
  exists body',
    render_lines hs data body plain =
    Ok (body', plain ++ str_concat (map (fun line => cells_line (map str line) ++ newline) data)).
Proof.
  intros Hwf; revert body plain.
  induction Hwf as [|line data Hline _ IH]; intros body plain; simpl.
  - exists body. now rewrite append_nil_r.
  - rewrite Hline, Nat.eqb_refl.
    pose proof (render_items_plain line (body ++ "<tr>") plain) as Hp.
    destruct (render_items line (body ++ "<tr>") plain) as [body1 plain1]; simpl in Hp.
    destruct (IH (body1 ++ "</tr>") (plain1 ++ newline)) as [body' ->].
    exists body'. subst plain1. now rewrite !append_assoc.
Qed.

Lemma render_lines_malformed (hs : list string) (data : list row) (body plain : string) :
  Exists (fun line => List.length line <> List.length hs) data ->
  render_lines hs data body plain = Raise AssertionError.
Proof.
  intros Hbad; revert body plain.
  induction data as [|line data IH]; intros body plain; simpl.
  - inversion Hbad.
  - destruct (Nat.eqb_spec (List.length line) (List.length hs)) as [Heq|Hne].
    + destruct (render_items line (body ++ "<tr>") plain) as [body1 plain1].
      apply IH. inversion Hbad; subst; [contradiction | assumption].
    + reflexivity.
Qed.

(** C5: [make_table] stops on the failed assertion
    [len(line) == len(cls.headers)] as soon as one row has another length
    than the headers, and returns no output then; when every row has the
    length of the headers it returns a body and a plain text. *)
Theorem make_table_rejects_malformed_rows (title : string) (hs : list string) (data : list row) :
  (Exists (fun line => List.length line <> List.length hs) data ->
   make_table title hs data = Raise AssertionError) /\
  (Forall (fun line => List.length line = List.length hs) data ->
   exists body plain, make_table title hs data = Ok (body, plain)).
Proof.
  unfold make_table; split; intros H.
  - destruct (render_headers hs _ _) as [body plain].
    now rewrite render_lines_malformed.
  - destruct (render_headers hs _ _) as [body plain].
    destruct (render_lines_ok hs data (body ++ "</tr></thead><tbody>") (plain ++ newline) H)
      as [body' ->].
    simpl. eauto.
Qed.

Lemma make_table_rejects_malformed_rows_witness :
  make_table "Espace disque" DiskModule.headers [[CStr "/" ; CStr "1.0 KiB"]]
    = Raise AssertionError /\
  exists body plain,
    make_table "Fichiers logs" LogModule.headers [[CStr "Total" ; CInt 0 ; CStr "0.0 B"]]
      = Ok (body, plain).
Proof.
  split.
  - apply (proj1 (make_table_rejects_malformed_rows _ _ _)).
    apply Exists_cons_hd. simpl. discriminate.
  - apply (proj2 (make_table_rejects_malformed_rows _ _ _)).
    repeat constructor.
Defined.

(** The plain text is not the joined rendering: after the last cell of
    the header line and of every row line comes one more [", "]. *)
Lemma make_table_plain_not_joined :
  exists body plain,
    make_table "Fichiers logs" LogModule.headers [[CStr "Total" ; CInt 0 ; CStr "0.0 B"]]
      = Ok (body, plain) /\
    plain <> plain_as_specified "Fichiers logs" LogModule.headers
               [[CStr "Total" ; CInt 0 ; CStr "0.0 B"]].
Proof.
  eexists; eexists; split.
  - vm_compute; reflexivity.
  - vm_compute; discriminate.
Qed.

(** C8, amended: for rows of the length of the headers, the plain text of
    [make_table] is the title line, the underline of as many ["="] as the
    title has characters, the header line, one line per row and a blank
    line, where a line holds each of its cells followed by [", "], the last
    cell too; the header line holds [len(headers)] cells and so does every
    row line. *)
Theorem make_table_plain_shape (title : string) (hs : list string) (data : list row) :
  Forall (fun line => List.length line = List.length hs) data ->
  (exists body,
     make_table title hs data =
     Ok (body,
         title ++ newline ++ str_repeat "=" (String.length title) ++ newline
           ++ cells_line hs ++ newline
           ++ str_concat (map (fun line => cells_line (map str line) ++ newline) data)
           ++ newline)) /\
  Forall (fun line => List.length (map str line) = List.length hs) data.
Proof.
  intros Hwf; split.
  - unfold make_table.
    pose proof (render_headers_plain hs
                  (("<h1>" ++ title ++ "</h1>") ++ "<table><thead><tr>")
                  (title ++ newline ++ str_repeat "=" (String.length title) ++ newline)) as Hp.
    destruct (render_headers hs _ _) as [body plain]; cbn [snd] in Hp.
    destruct (render_lines_ok hs data (body ++ "</tr></thead><tbody>") (plain ++ newline) Hwf)
      as [body' ->].
    cbn [bind fst snd]. exists (body' ++ "</tbody></table>").
    subst plain. now rewrite !append_assoc.
  - eapply Forall_impl; [|exact Hwf].
    intros line Hline. now rewrite length_map.
Qed.

Lemma make_table_plain_shape_witness :
  exists body,
    make_table "Fichiers logs" LogModule.headers [[CStr "Total" ; CInt 0 ; CStr "0.0 B"]]
    = Ok (body,
          "Fichiers logs" ++ newline ++ "=============" ++ newline
            ++ "Nom, Nombre de fichiers, Taille, " ++ newline
            ++ "Total, 0, 0.0 B, " ++ newline ++ newline).
Proof.
  destruct (make_table_plain_shape "Fichiers logs" LogModule.headers
              [[CStr "Total" ; CInt 0 ; CStr "0.0 B"]]) as [[body Hbody] _].
  - repeat constructor.
  - exists body. exact Hbody.
Defined.

(** ** LogModule.get_data *)

Section LogModuleFacts.

Import LogModule.

Lemma key_eqb_refl (k : key) : key_eqb k k = true.
Proof. destruct k as [s|]; simpl; [apply String.eqb_refl | reflexivity]. Qed.

Lemma dict_set_absent (k : key) (v : info) (logs : dict) :
  dict_get k logs = None -> dict_set k v logs = (logs ++ [(k, v)])%list.
Proof.
  induction logs as [|[k' v'] logs IH]; simpl; [reflexivity|].
  destruct (key_eqb k k'); [discriminate|].
  intros H. now rewrite IH.
Qed.

Lemma dict_get_app_same (k : key) (v : info) (logs : dict) :
  dict_get k (logs ++ [(k, v)])%list <> None.
Proof.
  induction logs as [|[k' v'] logs IH]; simpl.
  - rewrite key_eqb_refl. discriminate.
  - destruct (key_eqb k k'); [discriminate | exact IH].
Qed.

Lemma dict_add_sums (k : key) (sz : Z) (logs : dict) :
  dict_get k logs <> None ->
  sum (map size (map item_of (dict_add k sz logs)))
    = sum (map size (map item_of logs)) + sz /\
  sum (map number (map item_of (dict_add k sz logs)))
    = sum (map number (map item_of logs)) + 1.
Proof.
  induction logs as [|[k' v'] logs IH]; simpl; [congruence|].
  destruct (key_eqb k k'); intros H; simpl.
  - rewrite !sum_cons. unfold item_of; simpl. lia.
  - destruct (IH H) as [IH1 IH2]. rewrite !sum_cons, IH1, IH2. lia.
Qed.

Lemma scan_file_sums (logs : dict) (file : DirEntry) :
  sum (map size (map item_of (scan_file logs file)))
    = sum (map size (map item_of logs)) + (if is_file file then st_size file else 0) /\
  sum (map number (map item_of (scan_file logs file)))
    = sum (map number (map item_of logs)) + (if is_file file then 1 else 0).
Proof.
  unfold scan_file. destruct (is_file file); [|lia].
  destruct (dict_get (get_base_name (name file)) logs) eqn:Hget.
  - apply dict_add_sums. congruence.
  - rewrite (dict_set_absent _ _ _ Hget).
    destruct (dict_add_sums _ (st_size file) _
                (dict_get_app_same (get_base_name (name file))
                   {| total_size := 0; file_number := 0 |} logs)) as [H1 H2].
    rewrite H1, H2, !map_app, !sum_app. unfold item_of; simpl. rewrite !sum_cons, sum_nil. lia.
Qed.

Lemma fold_scan_file_sums (files : list DirEntry) (logs : dict) :
  sum (map size (map item_of (fold_left scan_file files logs)))
    = sum (map size (map item_of logs)) + sum (map st_size (filter is_file files)) /\
  sum (map number (map item_of (fold_left scan_file files logs)))
    = sum (map number (map item_of logs)) + Z.of_nat (List.length (filter is_file files)).
Proof.
  revert logs; induction files as [|file files IH]; intros logs; simpl.
  - rewrite sum_nil. lia.
  - destruct (IH (scan_file logs file)) as [IH1 IH2].
    destruct (scan_file_sums logs file) as [H1 H2].
    rewrite IH1, IH2, H1, H2.
    destruct (is_file file); simpl List.length; simpl map; rewrite ?sum_cons; lia.
Qed.

Lemma key_eqb_spec (a b : key) : reflect (a = b) (key_eqb a b).
Proof.
  destruct a as [x|], b as [y|]; simpl; try (constructor; congruence).
  destruct (String.eqb_spec x y); constructor; congruence.
Qed.

Lemma dict_get_add (k k' : key) (sz : Z) (logs : dict) :
  dict_get k (dict_add k' sz logs) =
  if key_eqb k' k
  then option_map (fun v => {| total_size := total_size v + sz;
                               file_number := file_number v + 1 |}) (dict_get k logs)
  else dict_get k logs.
Proof.
  induction logs as [|[k'' v] logs IH]; simpl.
  - now destruct (key_eqb k' k).
  - destruct (key_eqb_spec k' k'') as [<-|Hne]; simpl.
    + destruct (key_eqb_spec k k') as [->|Hne'].
      * now rewrite key_eqb_refl.
      * destruct (key_eqb_spec k' k); [congruence | reflexivity].
    + destruct (key_eqb_spec k k'') as [->|Hne'].
      * destruct (key_eqb_spec k' k''); [congruence | reflexivity].
      * exact IH.
Qed.

Lemma dict_get_app_new (k k' : key) (v : info) (logs : dict) :
  dict_get k (logs ++ [(k', v)])%list =
  match dict_get k logs with
  | Some x => Some x
  | None => if key_eqb k k' then Some v else None
  end.
Proof.
  induction logs as [|[k'' v''] logs IH]; simpl; [reflexivity|].
  destruct (key_eqb k k''); [reflexivity | exact IH].
Qed.

(** What one file does to the entry of [k]. *)
Lemma dict_get_scan_file (k : key) (logs : dict) (file : DirEntry) :
  dict_get k (scan_file logs file) =
  if is_file file && key_eqb (get_base_name (name file)) k
  then Some {| total_size := match dict_get k logs with
                             | Some v => total_size v
                             | None => 0
                             end + st_size file;
               file_number := match dict_get k logs with
                              | Some v => file_number v
                              | None => 0
                              end + 1 |}
  else dict_get k logs.
Proof.
  unfold scan_file. destruct (is_file file); [|reflexivity]. cbn [andb].
  destruct (dict_get (get_base_name (name file)) logs) eqn:Hget.
  - rewrite dict_get_add.
    destruct (key_eqb_spec (get_base_name (name file)) k) as [<-|_]; [|reflexivity].
    now rewrite Hget.
  - rewrite (dict_set_absent _ _ _ Hget), dict_get_add, dict_get_app_new.
    destruct (key_eqb_spec (get_base_name (name file)) k) as [<-|Hne].
    + now rewrite Hget, key_eqb_refl.
    + destruct (dict_get k logs); [reflexivity|].
      destruct (key_eqb_spec k (get_base_name (name file))); [congruence | reflexivity].
Qed.

Lemma dict_get_fold_scan_file (k : key) (files : list DirEntry) (logs : dict) :
  dict_get k (fold_left scan_file files logs) =
  match dict_get k logs, group_info (files_of k files) with
  | o, None => o
  | None, Some g => Some g
  | Some v, Some g => Some {| total_size := total_size v + total_size g;
                              file_number := file_number v + file_number g |}
  end.
Proof.
  revert logs; induction files as [|file files IH]; intros logs.
  - simpl. now destruct (dict_get k logs).
  - cbn [fold_left]. rewrite IH, dict_get_scan_file. unfold files_of. cbn [filter].
    destruct (is_file file && key_eqb (get_base_name (name file)) k).
    + fold (files_of k files). cbn [group_info map List.length].
      rewrite sum_cons, Nat2Z.inj_succ.
      destruct (files_of k files) as [|f fs]; cbn [group_info].
      * cbn [map]. change (sum []) with 0.
        destruct (dict_get k logs) as [[t n]|]; cbn [total_size file_number List.length];
          f_equal; f_equal; lia.
      * cbn [total_size file_number].
        destruct (dict_get k logs) as [[t n]|]; cbn [total_size file_number];
          f_equal; f_equal; lia.
    + reflexivity.
Qed.

(** The dictionary groups by base name: the entry of [k] counts the
    regular files of base name [k] and adds their sizes up, and a base
    name without a file has no entry. *)
Lemma scan_groups_by_base_name (k : key) (files : list DirEntry) :
  dict_get k (scan files) = group_info (files_of k files).
Proof.
  unfold scan. rewrite dict_get_fold_scan_file. simpl.
  now destruct (group_info (files_of k files)).
Qed.

Lemma insert_perm (x : item) (l : list item) : Permutation (insert x l) (x :: l).
Proof.
  induction l as [|y l IH]; simpl; [reflexivity|].
  destruct (size x <=? size y); [reflexivity|].
  rewrite IH. apply perm_swap.
Qed.

Lemma sorted_perm (l : list item) : Permutation (sorted l) l.
Proof.
  induction l as [|x l IH]; simpl; [reflexivity|].
  rewrite insert_perm. now apply perm_skip.
Qed.

Lemma ranked_perm (files : list DirEntry) :
  Permutation (ranked files) (map item_of (scan files)).
Proof.
  unfold ranked. rewrite <- Permutation_rev. apply sorted_perm.
Qed.

Lemma insert_ascending (x : item) (l : list item) :
  StronglySorted (fun a b => size a <= size b) l ->
  StronglySorted (fun a b => size a <= size b) (insert x l).
Proof.
  induction 1 as [|y l Hl IH Hy]; simpl.
  - repeat constructor.
  - destruct (Z.leb_spec (size x) (size y)) as [Hxy|Hxy].
    + constructor; [now constructor|].
      constructor; [exact Hxy|].
      eapply Forall_impl; [|exact Hy]. intros z Hz; simpl in *; lia.
    + constructor; [exact IH|].
      eapply Permutation_Forall; [symmetry; apply insert_perm|].
      constructor; [lia | exact Hy].
Qed.

Lemma sorted_ascending (l : list item) :
  StronglySorted (fun a b => size a <= size b) (sorted l).
Proof.
  induction l as [|x l IH]; simpl; [constructor | now apply insert_ascending].
Qed.

Lemma StronglySorted_snoc {A : Type} (R : A -> A -> Prop) (l : list A) (x : A) :
  StronglySorted R l -> Forall (fun a => R a x) l -> StronglySorted R (l ++ [x])%list.
Proof.
  induction 1 as [|y l Hl IH Hy]; intros Hx; simpl.
  - repeat constructor.
  - inversion Hx; subst. constructor; [now apply IH|].
    apply Forall_app; split; [exact Hy | now repeat constructor].
Qed.

Lemma rev_descending (l : list item) :
  StronglySorted (fun a b => size a <= size b) l ->
  StronglySorted larger_first (rev l).
Proof.
  induction 1 as [|y l Hl IH Hy]; simpl; [constructor|].
  apply StronglySorted_snoc; [exact IH|].
  apply Forall_rev. exact Hy.
Qed.

Lemma ranked_descending (files : list DirEntry) :
  StronglySorted larger_first (ranked files).
Proof. apply rev_descending, sorted_ascending. Qed.

Lemma filter_descending (f : item -> bool) (l : list item) :
  StronglySorted larger_first l -> StronglySorted larger_first (filter f l).
Proof.
  induction 1 as [|y l Hl IH Hy]; simpl; [constructor|].
  destruct (f y); [|exact IH].
  constructor; [exact IH|].
  rewrite Forall_forall in *. intros z Hz. apply Hy.
  now apply filter_In in Hz.
Qed.

Lemma StronglySorted_app_inv {A : Type} (R : A -> A -> Prop) (l1 l2 : list A) :
  StronglySorted R (l1 ++ l2)%list ->
  forall a b, In a l1 -> In b l2 -> R a b.
Proof.
  induction l1 as [|x l1 IH]; simpl; intros Hs a b Ha Hb; [contradiction|].
  inversion Hs as [|? ? Hs' Hx]; subst.
  destruct Ha as [->|Ha].
  - rewrite Forall_forall in Hx. apply Hx, in_or_app. now right.
  - now apply IH.
Qed.

(** The selection loop keeps the first [max_entries] items that reach
    [min_size], in the order of [data]. *)
Lemma select_spec (max_entries : nat) (min_size : Z) (data : list item) (acc : list row) :
  select max_entries min_size data acc
    = (acc ++ map display
                (firstn (max_entries - List.length acc)
                   (filter (fun it => min_size <=? size it) data)))%list.
Proof.
  revert acc; induction data as [|it data IH]; intros acc; simpl.
  - now rewrite firstn_nil, app_nil_r.
  - destruct (Z.ltb_spec (size it) min_size) as [Hlt|Hge].
    + destruct (Z.leb_spec min_size (size it)); [lia | apply IH].
    + destruct (Z.leb_spec min_size (size it)); [|lia].
      destruct (Nat.leb_spec max_entries (List.length acc)) as [Hfull|Hroom].
      * replace (max_entries - List.length acc)%nat with O by lia.
        now rewrite app_nil_r.
      * rewrite IH, length_app. simpl List.length.
        replace (max_entries - List.length acc)%nat
          with (S (max_entries - (List.length acc + 1)))%nat by lia.
        simpl. now rewrite <- app_assoc.
Qed.

(** C2: the last row of [get_data()] is [["Total", n, s]] with [n] the
    sum of the file counts of all groups of the directory and [s] the
    humanized sum of their sizes, whatever [MIN_SIZE] and [MAX_ENTRIES]
    are: groups below the threshold or beyond the cutoff count too.  The
    two sums are the number and the total size of the regular files. *)
Theorem total_row_sums_all_groups
  (max_entries : nat) (min_size : Z) (files : list DirEntry) :
  let groups := map item_of (scan files) in
  last (get_data_with max_entries min_size files) []
    = [CStr "Total" ; CInt (sum (map number groups)) ;
       CStr (sizeof_fmt (sum (map size groups)))] /\
  sum (map number groups) = Z.of_nat (List.length (filter is_file files)) /\
  sum (map size groups) = sum (map st_size (filter is_file files)).
Proof.
  intros groups. split.
  - unfold get_data_with. rewrite last_last. unfold total_row.
    rewrite (sum_permutation _ _ (Permutation_map number (ranked_perm files))).
    rewrite (sum_permutation _ _ (Permutation_map size (ranked_perm files))).
    reflexivity.
  - destruct (fold_scan_file_sums files []) as [H1 H2].
    unfold groups, scan. rewrite H1, H2. change (sum (map size (map item_of []))) with 0.
    change (sum (map number (map item_of []))) with 0. lia.
Qed.

(** C3: the rows of [get_data()] before the ["Total"] row are the first
    [MAX_ENTRIES] of the groups of at least [MIN_SIZE] bytes, taken from
    the groups sorted by size, largest first: no group below [MIN_SIZE]
    is shown; when more than [MAX_ENTRIES] groups qualify exactly
    [MAX_ENTRIES] rows are shown; and no qualifying group left out is
    larger than a group shown. *)
Theorem displayed_rows_policy
  (max_entries : nat) (min_size : Z) (files : list DirEntry) :
  let data := ranked files in
  let qualifying := filter (fun it => min_size <=? size it) data in
  let shown := firstn max_entries qualifying in
  StronglySorted larger_first data /\
  Permutation data (map item_of (scan files)) /\
  get_data_with max_entries min_size files
    = (map display shown ++ [total_row data])%list /\
  Forall (fun it => min_size <= size it) shown /\
  ((max_entries < List.length qualifying)%nat ->
   List.length (map display shown) = max_entries) /\
  (forall a b, In a shown -> In b (skipn max_entries qualifying) -> size b <= size a).
Proof.
  intros data qualifying shown.
  split; [apply ranked_descending|].
  split; [apply ranked_perm|].
  split.
  { unfold get_data_with. rewrite select_spec. simpl app.
    now rewrite Nat.sub_0_r. }
  split.
  { apply Forall_forall. intros it Hit.
    assert (Hq : In it qualifying).
    { rewrite <- (firstn_skipn max_entries qualifying). apply in_or_app. now left. }
    apply filter_In in Hq. destruct Hq as [_ Hq]. lia. }
  split.
  { intros Hmore. rewrite length_map. unfold shown. rewrite length_firstn. lia. }
  intros a b Ha Hb.
  apply (StronglySorted_app_inv larger_first shown (skipn max_entries qualifying));
    [|exact Ha|exact Hb].
  unfold shown. rewrite firstn_skipn.
  apply filter_descending, ranked_descending.
Qed.

(** [LogModuleTest.test_get_data]. *)
Lemma test_get_data :
  nth 0 (get_data logs_test) [] = [CStr "logfile" ; CInt 10 ; CStr "17.6 KiB"] /\
  nth 1 (get_data logs_test) [] = [CStr "Total" ; CInt 10 ; CStr "17.6 KiB"].
Proof. split; vm_compute; reflexivity. Qed.

Lemma displayed_rows_policy_witness :
  List.length (removelast (get_data thirteen_logs)) = MAX_ENTRIES.
Proof.
  destruct (displayed_rows_policy MAX_ENTRIES MIN_SIZE thirteen_logs)
    as (_ & _ & Hrows & _ & Hcut & _).
  unfold get_data. rewrite Hrows, removelast_last.
  apply Hcut. vm_compute. lia.
Defined.

End LogModuleFacts.

(** ** DiskModule.get_data *)

Section DiskModuleFacts.

Import DiskModule.

Variable query : string -> usage.

Lemma format_percent_ok (a b : Z) : b <> 0 -> format_percent a b = Ok (percent a b).
Proof.
  intros Hb. unfold format_percent.
  destruct (Z.eqb_spec b 0); [contradiction | reflexivity].
Qed.

Lemma format_percent_cases (a b : Z) :
  format_percent a b = Raise ZeroDivisionError \/ format_percent a b = Ok (percent a b).
Proof. unfold format_percent. destruct (b =? 0); auto. Qed.

Lemma loop_ok (parts : list string) (st : locals) :
  Forall (fun p => total (query p) <> 0) parts ->
  loop query parts st =
  Ok {| data := (data st ++ map (partition_row query) parts)%list;
        used_sum := used_sum st + sum (map (fun p => used (query p)) parts);
        disk_usage := match parts with
                      | [] => disk_usage st
                      | _ :: _ => Some (query (last parts ""))
                      end |}.
Proof.
  intros Hparts; revert st.
  induction Hparts as [|part parts Hpart _ IH]; intros st.
  - simpl. rewrite app_nil_r, sum_nil, Z.add_0_r. now destruct st.
  - cbn [loop]. rewrite (format_percent_ok _ _ Hpart). cbn [bind].
    rewrite IH. cbn [data used_sum disk_usage]. f_equal. f_equal.
    + now rewrite <- app_assoc.
    + cbn [map]. rewrite sum_cons. lia.
    + now destruct parts.
Qed.

(** The loop only fails on a division by zero, and binds [disk_usage]
    as soon as it runs once. *)
Lemma loop_cases (parts : list string) (st : locals) :
  loop query parts st = Raise ZeroDivisionError \/
  exists st', loop query parts st = Ok st' /\
              (parts <> [] \/ disk_usage st <> None -> disk_usage st' <> None).
Proof.
  revert st; induction parts as [|part parts IH]; intros st.
  - right. exists st. split; [reflexivity|]. intros [H|H]; [congruence | exact H].
  - cbn [loop].
    destruct (format_percent_cases (used (query part)) (total (query part))) as [-> | ->];
      cbn [bind]; [now left|].
    match goal with |- context [loop query parts ?s] => destruct (IH s) as [H | (st' & H & Hb)] end.
    + now left.
    + right. exists st'. split; [exact H|]. intros _. apply Hb. right. discriminate.
Qed.

Lemma last_total_nonzero (parts : list string) :
  parts <> [] ->
  Forall (fun p => total (query p) <> 0) parts ->
  total (query (last parts "")) <> 0.
Proof.
  intros Hne Hparts. rewrite Forall_forall in Hparts. apply Hparts.
  destruct (exists_last Hne) as (l & a & ->). rewrite last_last.
  apply in_or_app. right. now left.
Qed.

(** C7: for a partition list that is not empty and partitions whose
    total capacity is not zero, so that the percentages exist,
    [get_data()] returns one row [[part, sizeof_fmt(used), '', percent]]
    per partition, in order, and then the row
    [['TOTAL', sizeof_fmt(sum of used), sizeof_fmt(total of the last
    partition), percent of that sum in the last partition's total]], a
    percentage being printed with two decimals and a percent sign. *)
Theorem disk_rows_and_total (parts : list string) :
  parts <> [] ->
  Forall (fun p => total (query p) <> 0) parts ->
  let used_all := sum (map (fun p => used (query p)) parts) in
  let last_total := total (query (last parts "")) in
  get_data query parts =
  Ok (map (partition_row query) parts ++
      [[CStr "TOTAL" ; CStr (sizeof_fmt used_all) ; CStr (sizeof_fmt last_total) ;
        CStr (percent used_all last_total)]])%list.
Proof.
  intros Hne Hparts used_all last_total. unfold get_data.
  rewrite (loop_ok parts _ Hparts). cbn [bind data used_sum disk_usage].
  pose proof (last_total_nonzero parts Hne Hparts) as Hlast.
  destruct parts as [|part parts]; [congruence|].
  rewrite Z.add_0_l. fold used_all last_total.
  now rewrite (format_percent_ok used_all last_total Hlast).
Qed.

(** C10: with no partition configured [get_data()] fails on reading
    [disk_usage], which the loop never bound; with at least one partition
    it never fails that way, and it returns its rows when the capacities
    are not zero. *)
Theorem empty_partition_list_unbound :
  get_data query [] = Raise (UnboundLocalError "disk_usage") /\
  (forall parts, parts <> [] ->
                 get_data query parts <> Raise (UnboundLocalError "disk_usage")) /\
  (forall parts, parts <> [] ->
                 Forall (fun p => total (query p) <> 0) parts ->
                 exists rows, get_data query parts = Ok rows).
Proof.
  split; [reflexivity|]. split.
  - intros parts Hne. unfold get_data.
    destruct (loop_cases parts {| data := []; used_sum := 0; disk_usage := None |})
      as [-> | (st' & -> & Hb)]; cbn [bind]; [discriminate|].
    destruct (disk_usage st') as [du|]; [|exfalso; apply Hb; auto].
    destruct (format_percent_cases (used_sum st') (total du)) as [-> | ->];
      cbn [bind]; discriminate.
  - intros parts Hne Hparts. unfold get_data.
    rewrite (loop_ok parts _ Hparts). cbn [bind data used_sum disk_usage].
    pose proof (last_total_nonzero parts Hne Hparts) as Hlast.
    destruct parts as [|part parts]; [congruence|].
    rewrite (format_percent_ok _ _ Hlast). cbn [bind]. eauto.
Qed.

(** A partition of capacity zero stops [get_data()] on the division. *)
Lemma zero_capacity_raises (part : string) (parts : list string) :
  total (query part) = 0 ->
  get_data query (part :: parts) = Raise ZeroDivisionError.
Proof.
  intros Hzero. unfold get_data. cbn [loop]. unfold format_percent.
  now rewrite Hzero.
Qed.

End DiskModuleFacts.

Lemma disk_rows_and_total_witness :
  DiskModule.get_data two_disks ["/" ; "/home"] =
  Ok [[CStr "/" ; CStr "244.1 KiB" ; CStr "" ; CStr "25.00%"] ;
      [CStr "/home" ; CStr "1000.0 B" ; CStr "" ; CStr "33.33%"] ;
      [CStr "TOTAL" ; CStr "245.1 KiB" ; CStr "2.9 KiB" ; CStr "8366.67%"]].
Proof.
  rewrite (disk_rows_and_total two_disks ["/" ; "/home"]).
  - vm_compute. reflexivity.
  - discriminate.
  - apply Forall_cons; [vm_compute; discriminate|].
    apply Forall_cons; [vm_compute; discriminate|].
    apply Forall_nil.
Defined.

Lemma empty_partition_list_unbound_witness :
  DiskModule.get_data two_disks [] = Raise (UnboundLocalError "disk_usage") /\
  DiskModule.get_data two_disks ["/"] <> Raise (UnboundLocalError "disk_usage") /\
  exists rows, DiskModule.get_data two_disks ["/"] = Ok rows.
Proof.
  destruct (empty_partition_list_unbound two_disks) as (Hempty & Hbound & Hrows).
  split; [exact Hempty|]. split.
  - apply Hbound. discriminate.
  - apply Hrows; [discriminate|].
    apply Forall_cons; [vm_compute; discriminate | apply Forall_nil].
Defined.

(** ** The aggregation loop *)

Section AggregatorFacts.

Variable platform : string.

Lemma loop_app (ms1 ms2 : list ModuleClass) (i : nat) (body plain : string)
  (trace : list event) :
  loop platform i (ms1 ++ ms2)%list body plain trace =
  match loop platform i ms1 body plain trace with
  | (trace', Completed body' plain') =>
      loop platform (i + List.length ms1) ms2 body' plain' trace'
  | (trace', Aborted e) => (trace', Aborted e)
  end.
Proof.
  revert i body plain trace.
  induction ms1 as [|m ms1 IH]; intros i body plain trace.
  - simpl. now rewrite Nat.add_0_r.
  - cbn [loop app List.length].
    replace (i + S (List.length ms1))%nat with (S i + List.length ms1)%nat by lia.
    destruct (supported platform m); [|apply IH].
    destruct (get_data m) as [data|e]; [|reflexivity].
    destruct (make_table (title m) (headers m) data) as [[b p]|e]; [apply IH | reflexivity].
Qed.

Lemma loop_completed_trace (ms : list ModuleClass) (i : nat) (body plain : string)
  (trace trace' : list event) (body' plain' : string) :
  loop platform i ms body plain trace = (trace', Completed body' plain') ->
  trace' = (trace ++ gate_events platform i ms)%list.
Proof.
  revert i body plain trace.
  induction ms as [|m ms IH]; intros i body plain trace; cbn [loop gate_events].
  - intros H. injection H as <- _ _. now rewrite app_nil_r.
  - unfold gate_event. destruct (supported platform m).
    + destruct (get_data m) as [data|e]; [|discriminate].
      destruct (make_table (title m) (headers m) data) as [[b p]|e]; [|discriminate].
      intros H. apply IH in H. now rewrite <- app_assoc in H.
    + intros H. apply IH in H. now rewrite <- app_assoc in H.
Qed.

Lemma loop_trace_prefix (ms : list ModuleClass) (i : nat) (body plain : string)
  (trace : list event) :
  exists n,
    fst (loop platform i ms body plain trace)
      = (trace ++ firstn n (gate_events platform i ms))%list.
Proof.
  revert i body plain trace.
  induction ms as [|m ms IH]; intros i body plain trace; cbn [loop gate_events].
  - exists O. simpl. now rewrite app_nil_r.
  - unfold gate_event. destruct (supported platform m).
    + destruct (get_data m) as [data|e]; [|now exists 1%nat].
      destruct (make_table (title m) (headers m) data) as [[b p]|e]; [|now exists 1%nat].
      destruct (IH (S i) (body ++ b) (plain ++ p) (trace ++ [EvGetData i])%list) as [n Hn].
      exists (S n). rewrite Hn. cbn [firstn]. now rewrite <- app_assoc.
    + destruct (IH (S i) body plain
                  (trace ++ [EvPrint i (skip_notice m platform)])%list) as [n Hn].
      exists (S n). rewrite Hn. cbn [firstn]. now rewrite <- app_assoc.
Qed.

Lemma index_of_gate_event (i : nat) (m : ModuleClass) :
  index_of (gate_event platform i m) = i.
Proof. unfold gate_event. now destruct (supported platform m). Qed.

Lemma gate_events_get_data (ms : list ModuleClass) (i j : nat) :
  In (EvGetData j) (gate_events platform i ms) ->
  exists m, (i <= j)%nat /\ nth_error ms (j - i) = Some m /\ supported platform m = true.
Proof.
  revert i; induction ms as [|m ms IH]; intros i; cbn [gate_events]; [contradiction|].
  intros [H|H].
  - unfold gate_event in H. destruct (supported platform m) eqn:Hs; [|discriminate].
    injection H as <-. exists m. rewrite Nat.sub_diag. auto.
  - destruct (IH _ H) as (m' & Hle & Hnth & Hs).
    exists m'. split; [lia|]. split; [|exact Hs].
    replace (j - i)%nat with (S (j - S i)) by lia. exact Hnth.
Qed.

Lemma events_at_gate_events (ms : list ModuleClass) (i j : nat) :
  events_at j (gate_events platform i ms) =
  match (if (i <=? j)%nat then nth_error ms (j - i) else None) with
  | Some m => [gate_event platform j m]
  | None => []
  end.
Proof.
  revert i; induction ms as [|m ms IH]; intros i; cbn [gate_events].
  - destruct (i <=? j)%nat; [now destruct (j - i)%nat | reflexivity].
  - unfold events_at in *. cbn [filter]. rewrite index_of_gate_event, IH.
    destruct (Nat.eqb_spec i j) as [->|Hne].
    + rewrite Nat.leb_refl, Nat.sub_diag. cbn [nth_error].
      destruct (Nat.leb_spec (S j) j); [lia | reflexivity].
    + destruct (Nat.leb_spec i j) as [Hle|Hgt].
      * destruct (Nat.leb_spec (S i) j); [|lia].
        replace (j - i)%nat with (S (j - S i)) by lia. reflexivity.
      * destruct (Nat.leb_spec (S i) j); [lia | reflexivity].
Qed.

(** C1, amended: there is no failure isolation.  When the modules
    before it are processed without an exception and the [get_data()] of
    an applicable module raises, the exception goes through the loop: the
    call is the last event of the run, no later module is called or
    noticed, no failure notice is printed, and the run ends with the
    exception and without a body or a plain text. *)
Theorem exception_aborts_run
  (ms1 : list ModuleClass) (module : ModuleClass) (ms2 : list ModuleClass)
  (e : exn) (body plain : string) :
  snd (main platform ms1) = Completed body plain ->
  supported platform module = true ->
  get_data module = Raise e ->
  main platform (ms1 ++ module :: ms2) =
  ((fst (main platform ms1) ++ [EvGetData (List.length ms1)])%list, Aborted e).
Proof.
  unfold main. intros Hpre Hsup Hraise. rewrite loop_app.
  destruct (loop platform 0 ms1 "" "" []) as [trace out]. cbn [fst snd] in *.
  subst out. cbn [loop]. now rewrite Hsup, Hraise.
Qed.

(** C9, amended: a module whose [platforms] do not hold the current
    platform never has its [get_data()] called; and in every run that no
    exception aborts, the run has exactly one event for each module: the
    skip notice ["[title] module not supported on platform"] when the
    platform is not supported, the call of [get_data()] when it is. *)
Theorem platform_gating (modules : list ModuleClass) :
  (forall i module,
      nth_error modules i = Some module ->
      supported platform module = false ->
      ~ In (EvGetData i) (fst (main platform modules))) /\
  (forall body plain,
      snd (main platform modules) = Completed body plain ->
      forall i module,
        nth_error modules i = Some module ->
        (supported platform module = false ->
         events_at i (fst (main platform modules))
           = [EvPrint i (skip_notice module platform)]) /\
        (supported platform module = true ->
         events_at i (fst (main platform modules)) = [EvGetData i])).
Proof.
  unfold main. split.
  - intros i module Hnth Hunsup Hin.
    destruct (loop_trace_prefix modules 0 "" "" []) as [n Hn].
    rewrite Hn in Hin. cbn [app] in Hin.
    assert (Hall : In (EvGetData i) (gate_events platform 0 modules)).
    { rewrite <- (firstn_skipn n (gate_events platform 0 modules)).
      apply in_or_app. now left. }
    apply gate_events_get_data in Hall. destruct Hall as (m & _ & Hm & Hs).
    rewrite Nat.sub_0_r in Hm. congruence.
  - intros body plain Hdone i module Hnth.
    destruct (loop platform 0 modules "" "" []) as [trace out] eqn:Hrun.
    cbn [fst snd] in *. subst out.
    apply loop_completed_trace in Hrun. cbn [app] in Hrun. subst trace.
    rewrite events_at_gate_events. cbn [Nat.leb]. rewrite Nat.sub_0_r, Hnth.
    unfold gate_event. split; intros ->; reflexivity.
Qed.

End AggregatorFacts.

(** On a Linux host without configured partition [DiskModule.get_data()]
    raises; [LogModule] is applicable and its section can be rendered, but
    the run stops at the first call: no section, no failure notice. *)
Lemma failure_not_isolated :
  get_data (DiskModule_class no_partition_host) = Raise (UnboundLocalError "disk_usage") /\
  supported "linux" (LogModule_class no_partition_host) = true /\
  section_of (LogModule_class no_partition_host) <> None /\
  main "linux" (MODULES no_partition_host)
    = ([EvGetData 0%nat], Aborted (UnboundLocalError "disk_usage")) /\
  ~ failure_isolated "linux" (MODULES no_partition_host).
Proof.
  split; [reflexivity|]. split; [reflexivity|].
  split; [vm_compute; discriminate|]. split; [reflexivity|].
  intros (body & plain & Hdone & _). vm_compute in Hdone. discriminate.
Qed.

Lemma exception_aborts_run_witness :
  main "linux" (MODULES no_apt_host) =
  ((fst (main "linux" [DiskModule_class no_apt_host]) ++ [EvGetData 1%nat])%list,
   Aborted (OtherError "AttributeError")).
Proof.
  refine (exception_aborts_run "linux" [DiskModule_class no_apt_host]
            (AptModule_class no_apt_host) [LogModule_class no_apt_host]
            (OtherError "AttributeError") _ _ _ _ _);
    reflexivity.
Defined.

(** On a Darwin host without configured partition the run stops in
    [DiskModule]: [AptModule], not supported there, gets no skip notice. *)
Lemma gating_notice_missing :
  supported "darwin" (AptModule_class no_partition_host) = false /\
  events_at 1 (fst (main "darwin" (MODULES no_partition_host))) = [] /\
  ~ platform_gated "darwin" (MODULES no_partition_host).
Proof.
  split; [reflexivity|]. split; [reflexivity|].
  intros H. specialize (H 1%nat (AptModule_class no_partition_host) eq_refl).
  vm_compute in H. discriminate.
Qed.

Lemma platform_gating_witness :
  ~ In (EvGetData 1%nat) (fst (main "darwin" (MODULES no_apt_host))) /\
  events_at 1 (fst (main "darwin" (MODULES no_apt_host)))
    = [EvPrint 1 (skip_notice (AptModule_class no_apt_host) "darwin")] /\
  events_at 2 (fst (main "darwin" (MODULES no_apt_host))) = [EvGetData 2%nat].
Proof.
  destruct (platform_gating "darwin" (MODULES no_apt_host)) as [Hnever Hdone].
  destruct (snd (main "darwin" (MODULES no_apt_host))) as [body plain|e] eqn:Hrun;
    [|vm_compute in Hrun; discriminate].
  specialize (Hdone body plain eq_refl).
  split; [|split].
  - apply (Hnever 1%nat (AptModule_class no_apt_host)); reflexivity.
  - apply (Hdone 1%nat (AptModule_class no_apt_host)); reflexivity.
  - apply (Hdone 2%nat (LogModule_class no_apt_host)); reflexivity.
Defined.

(** * Further properties *)

(** ** make_table: the two renderings in closed form *)

Lemma render_headers_eq (hs : list string) (body plain : string) :
  render_headers hs body plain = (body ++ th_cells hs, plain ++ cells_line hs).
Proof.
  revert body plain; induction hs as [|h hs IH]; intros body plain; cbn [render_headers].
  - unfold th_cells, cells_line. cbn [map str_concat fold_right]. now rewrite !append_nil_r.
  - rewrite IH. unfold th_cells, cells_line. cbn [map str_concat fold_right].
    now rewrite !append_assoc.
Qed.

Lemma render_items_eq (line : row) (body plain : string) :
  render_items line body plain = (body ++ td_cells line, plain ++ cells_line (map str line)).
Proof.
  revert body plain; induction line as [|c line IH]; intros body plain; cbn [render_items].
  - unfold td_cells, cells_line. cbn [map str_concat fold_right]. now rewrite !append_nil_r.
  - rewrite IH. unfold td_cells, cells_line. cbn [map str_concat fold_right].
    now rewrite !append_assoc.
Qed.

Lemma render_lines_eq (hs : list string) (data : list row) (body plain : string) :
  Forall (fun line => List.length line = List.length hs) data ->
  render_lines hs data body plain =
  Ok (body ++ tr_rows data,
      plain ++ str_concat (map (fun line => cells_line (map str line) ++ newline) data)).
Proof.
  intros Hwf; revert body plain.
  induction Hwf as [|line data Hline _ IH]; intros body plain; cbn [render_lines].
  - unfold tr_rows. cbn [map str_concat fold_right]. now rewrite !append_nil_r.
  - rewrite Hline, Nat.eqb_refl, render_items_eq, IH.
    unfold tr_rows. cbn [map str_concat fold_right]. now rewrite !append_assoc.
Qed.

(** X1: on rows of the length of the headers [make_table] returns, as its
    body, the heading, the table head with one [<th>] per header and one
    [<tr>] of [<td>] cells per row, every text inserted as it is, and as its
    plain text the lines of cells. *)
Theorem make_table_renderings (title : string) (hs : list string) (data : list row) :
  Forall (fun line => List.length line = List.length hs) data ->
  make_table title hs data =
  Ok ("<h1>" ++ title ++ "</h1>" ++ "<table><thead><tr>" ++ th_cells hs
        ++ "</tr></thead><tbody>" ++ tr_rows data ++ "</tbody></table>",
      title ++ newline ++ str_repeat "=" (String.length title) ++ newline
        ++ cells_line hs ++ newline
        ++ str_concat (map (fun line => cells_line (map str line) ++ newline) data)
        ++ newline).
Proof.
  intros Hwf. unfold make_table.
  rewrite render_headers_eq, (render_lines_eq hs data _ _ Hwf).
  cbn [bind fst snd]. now rewrite !append_assoc.
Qed.

Lemma make_table_renderings_witness :
  make_table "T" ["a" ; "b"] [[CStr "<i>" ; CInt 7] ; [CNone ; CStr ""]] =
  Ok ("<h1>T</h1><table><thead><tr><th>a</th><th>b</th></tr></thead><tbody>"
        ++ "<tr><td><i></td><td>7</td></tr><tr><td>None</td><td></td></tr></tbody></table>",
      "T" ++ newline ++ "=" ++ newline ++ "a, b, " ++ newline
        ++ "<i>, 7, " ++ newline ++ "None, , " ++ newline ++ newline).
Proof.
  rewrite (make_table_renderings "T" ["a" ; "b"] [[CStr "<i>" ; CInt 7] ; [CNone ; CStr ""]]).
  - reflexivity.
  - repeat constructor.
Defined.

Lemma make_table_wellformed (title : string) (hs : list string) (data : list row) :
  Forall (fun line => List.length line = List.length hs) data ->
  exists body plain, make_table title hs data = Ok (body, plain).
Proof.
  intros Hwf. unfold make_table.
  rewrite render_headers_eq, (render_lines_eq hs data _ _ Hwf). cbn [bind]. eauto.
Qed.

Lemma make_table_malformed (title : string) (hs : list string) (data : list row) :
  Exists (fun line => List.length line <> List.length hs) data ->
  make_table title hs data = Raise AssertionError.
Proof.
  intros Hbad. unfold make_table. rewrite render_headers_eq.
  now rewrite render_lines_malformed.
Qed.

(** ** LogModule.get_data: groups and rows *)

Section LogModuleGroups.

Import LogModule.

Lemma dict_get_none_not_in (k : key) (logs : dict) :
  dict_get k logs = None -> ~ In k (map fst logs).
Proof.
  induction logs as [|[k' v] logs IH]; simpl; [tauto|].
  destruct (key_eqb_spec k k') as [->|Hne]; [discriminate|].
  intros H [Heq|Hin]; [congruence | now apply IH].
Qed.

Lemma dict_add_keys (k : key) (sz : Z) (logs : dict) :
  map fst (dict_add k sz logs) = map fst logs.
Proof.
  induction logs as [|[k' v] logs IH]; simpl; [reflexivity|].
  destruct (key_eqb k k'); simpl; [reflexivity | now rewrite IH].
Qed.

Lemma scan_file_keys_nodup (logs : dict) (file : DirEntry) :
  NoDup (map fst logs) -> NoDup (map fst (scan_file logs file)).
Proof.
  intros Hnd. unfold scan_file. destruct (is_file file); [|exact Hnd].
  destruct (dict_get (get_base_name (name file)) logs) eqn:Hget.
  - now rewrite dict_add_keys.
  - rewrite (dict_set_absent _ _ _ Hget), dict_add_keys, map_app. simpl.
    apply NoDup_app; [exact Hnd | repeat constructor; tauto |].
    intros k Hk [<-|[]]. now apply (dict_get_none_not_in _ _ Hget).
Qed.

Lemma fold_scan_file_keys_nodup (files : list DirEntry) (logs : dict) :
  NoDup (map fst logs) -> NoDup (map fst (fold_left scan_file files logs)).
Proof.
  revert logs; induction files as [|file files IH]; intros logs Hnd; simpl.
  - exact Hnd.
  - now apply IH, scan_file_keys_nodup.
Qed.

(** X2: a base name has one group at most: the log names of [data], the
    list that is sorted and displayed, are pairwise distinct. *)
Theorem ranked_lognames_distinct (files : list DirEntry) :
  NoDup (map logname (ranked files)).
Proof.
  assert (Hkeys : NoDup (map fst (scan files))).
  { apply fold_scan_file_keys_nodup. constructor. }
  replace (map fst (scan files)) with (map logname (map item_of (scan files))) in Hkeys
    by now rewrite map_map.
  eapply Permutation_NoDup; [|exact Hkeys].
  apply Permutation_map. symmetry. apply ranked_perm.
Qed.

Lemma fold_scan_file_regular (files : list DirEntry) (logs : dict) :
  fold_left scan_file (filter is_file files) logs = fold_left scan_file files logs.
Proof.
  revert logs; induction files as [|file files IH]; intros logs; [reflexivity|].
  cbn [filter fold_left]. destruct (is_file file) eqn:Hfile.
  - cbn [fold_left]. apply IH.
  - rewrite IH. f_equal. unfold scan_file. now rewrite Hfile.
Qed.

(** X3: [get_data()] only looks at regular files: directories and other
    entries of the listing change no row, whatever their names and sizes. *)
Theorem get_data_ignores_other_entries
  (max_entries : nat) (min_size : Z) (files : list DirEntry) :
  get_data_with max_entries min_size (filter is_file files)
    = get_data_with max_entries min_size files.
Proof.
  unfold get_data_with, ranked, scan. now rewrite fold_scan_file_regular.
Qed.

(** X4: a directory without a regular file gives the one row
    [["Total", 0, "0.0 B"]]. *)
Theorem get_data_no_regular_file
  (max_entries : nat) (min_size : Z) (files : list DirEntry) :
  filter is_file files = [] ->
  get_data_with max_entries min_size files = [[CStr "Total" ; CInt 0 ; CStr "0.0 B"]].
Proof.
  intros Hnone. unfold get_data_with, ranked, scan.
  rewrite <- fold_scan_file_regular, Hnone. reflexivity.
Qed.

Lemma get_data_no_regular_file_witness :
  get_data [{| name := "nginx"; is_file := false; st_size := 4096 |}]
    = [[CStr "Total" ; CInt 0 ; CStr "0.0 B"]].
Proof.
  apply (get_data_no_regular_file MAX_ENTRIES MIN_SIZE). reflexivity.
Defined.

(** X5: [get_data()] returns at least the ["Total"] row and at most
    [MAX_ENTRIES] rows before it, and never more rows than one per group
    and the total. *)
Theorem get_data_row_count (max_entries : nat) (min_size : Z) (files : list DirEntry) :
  (1 <= List.length (get_data_with max_entries min_size files) <= S max_entries)%nat /\
  (List.length (get_data_with max_entries min_size files)
     <= S (List.length (scan files)))%nat.
Proof.
  unfold get_data_with. rewrite select_spec, length_app. cbn [app List.length].
  rewrite length_map, length_firstn, Nat.sub_0_r.
  pose proof (filter_length_le (fun it => min_size <=? size it) (ranked files)) as Hle.
  assert (Hlen : List.length (ranked files) = List.length (scan files)).
  { rewrite (Permutation_length (ranked_perm files)). apply length_map. }
  lia.
Qed.

Lemma display_length (it : item) : List.length (display it) = List.length headers.
Proof. reflexivity. Qed.

Lemma get_data_rows_wellformed (max_entries : nat) (min_size : Z) (files : list DirEntry) :
  Forall (fun line => List.length line = List.length headers)
         (get_data_with max_entries min_size files).
Proof.
  unfold get_data_with. rewrite select_spec. cbn [app].
  apply Forall_app. split.
  - apply Forall_forall. intros line Hline.
    apply in_map_iff in Hline. destruct Hline as (it & <- & _). apply display_length.
  - repeat constructor.
Qed.

(** X6: the rows of [get_data()] always fit [LogModule.headers]: every row
    has three cells, so that [make_table] renders the section without
    failing on its assertion, whatever the directory holds. *)
Theorem log_section_renders (max_entries : nat) (min_size : Z) (files : list DirEntry) :
  Forall (fun line => List.length line = 3%nat) (get_data_with max_entries min_size files) /\
  exists body plain,
    make_table title headers (get_data_with max_entries min_size files) = Ok (body, plain).
Proof.
  split.
  - apply get_data_rows_wellformed.
  - apply make_table_wellformed, get_data_rows_wellformed.
Qed.

(** X7: the dictionary groups by base name: the group of [k] counts the
    regular files whose base name is [k] and adds their sizes up, a base
    name without a regular file has no group, and the files whose name the
    pattern does not match are the group of [None]. *)
Theorem scan_entry_of_base_name (k : key) (files : list DirEntry) :
  dict_get k (scan files) = group_info (files_of k files) /\
  (dict_get k (scan files) = None <->
   forall file, In file files -> is_file file = true -> get_base_name (name file) <> k).
Proof.
  split; [apply scan_groups_by_base_name|].
  rewrite scan_groups_by_base_name. unfold group_info, files_of. split.
  - intros Hnone file Hin Hfile Hk.
    assert (Hf : In file (filter (fun f => is_file f && key_eqb (get_base_name (name f)) k)
                                 files)).
    { apply filter_In. split; [exact Hin|]. rewrite Hfile, Hk, key_eqb_refl. reflexivity. }
    destruct (filter _ files); [contradiction | discriminate].
  - intros Hall.
    destruct (filter _ files) as [|f fs] eqn:Hfilter; [reflexivity|].
    assert (Hf : In f (f :: fs)) by now left.
    rewrite <- Hfilter in Hf. apply filter_In in Hf. destruct Hf as [Hin Hf].
    apply andb_true_iff in Hf. destruct Hf as [Hfile Hk].
    destruct (key_eqb_spec (get_base_name (name f)) k) as [Heq|]; [|discriminate].
    exfalso. exact (Hall f Hin Hfile Heq).
Qed.

End LogModuleGroups.

Lemma scan_entry_of_base_name_witness :
  LogModule.dict_get (Some "logfile") (LogModule.scan logs_test)
    = Some {| LogModule.total_size := 18003; LogModule.file_number := 10 |} /\
  LogModule.dict_get (Some "syslog") (LogModule.scan logs_test) = None.
Proof.
  split.
  - rewrite (proj1 (scan_entry_of_base_name (Some "logfile") logs_test)). reflexivity.
  - apply (proj2 (scan_entry_of_base_name (Some "syslog") logs_test)).
    intros file Hin _.
    repeat (destruct Hin as [<-|Hin]; [vm_compute; discriminate|]).
    destruct Hin.
Defined.

(** ** DiskModule.get_data: outcomes *)

Section DiskModuleOutcomes.

Import DiskModule.

Variable query : string -> usage.

Lemma loop_zero (parts : list string) (st : locals) :
  Exists (fun p => total (query p) = 0) parts ->
  loop query parts st = Raise ZeroDivisionError.
Proof.
  revert st; induction parts as [|part parts IH]; intros st Hzero.
  - inversion Hzero.
  - cbn [loop]. unfold format_percent.
    destruct (Z.eqb_spec (total (query part)) 0) as [Heq|Hne]; [reflexivity|].
    cbn [bind]. apply IH. inversion Hzero; subst; [contradiction | assumption].
Qed.

Lemma zero_or_not (parts : list string) :
  Exists (fun p => total (query p) = 0) parts \/
  Forall (fun p => total (query p) <> 0) parts.
Proof.
  induction parts as [|part parts [IH|IH]].
  - right. constructor.
  - left. now apply Exists_cons_tl.
  - destruct (Z.eq_dec (total (query part)) 0) as [Heq|Hne].
    + left. now apply Exists_cons_hd.
    + right. now constructor.
Qed.

Lemma get_data_nonzero (parts : list string) :
  parts <> [] ->
  Forall (fun p => total (query p) <> 0) parts ->
  get_data query parts =
  Ok (map (partition_row query) parts ++
      [[CStr "TOTAL" ;
        CStr (sizeof_fmt (sum (map (fun p => used (query p)) parts))) ;
        CStr (sizeof_fmt (total (query (last parts "")))) ;
        CStr (percent (sum (map (fun p => used (query p)) parts))
                      (total (query (last parts ""))))]])%list.
Proof.
  intros Hne Hparts. unfold get_data.
  rewrite (loop_ok query parts _ Hparts). cbn [bind data used_sum disk_usage].
  pose proof (last_total_nonzero query parts Hne Hparts) as Hlast.
  destruct parts as [|part parts]; [congruence|].
  rewrite Z.add_0_l. now rewrite (format_percent_ok _ _ Hlast).
Qed.


Lemma partition_row_length (part : string) :
  List.length (partition_row query part) = List.length headers.
Proof. reflexivity. Qed.

Lemma get_data_ok_inv (parts : list string) (rows : list row) :
  get_data query parts = Ok rows ->
  parts <> [] /\
  Forall (fun p => total (query p) <> 0) parts /\
  Forall (fun line => List.length line = List.length headers) rows.
Proof.
  intros Hok.
  assert (Hne : parts <> []) by (intros ->; discriminate Hok).
  destruct (zero_or_not parts) as [Hzero|Hnonzero].
  - unfold get_data in Hok. rewrite (loop_zero _ _ Hzero) in Hok. discriminate.
  - split; [exact Hne|]. split; [exact Hnonzero|].
    rewrite (get_data_nonzero parts Hne Hnonzero) in Hok.
    injection Hok as <-. apply Forall_app. split.
    + apply Forall_forall. intros line Hline.
      apply in_map_iff in Hline. destruct Hline as (p & <- & _).
      apply partition_row_length.
    + repeat constructor.
Qed.

(** X9: whenever [get_data()] returns, its rows fit [DiskModule.headers]:
    every row has four cells and [make_table] renders the section without
    failing on its assertion. *)
Theorem disk_section_renders (parts : list string) (rows : list row) :
  get_data query parts = Ok rows ->
  Forall (fun line => List.length line = 4%nat) rows /\
  exists body plain, make_table title headers rows = Ok (body, plain).
Proof.
  intros Hok. destruct (get_data_ok_inv parts rows Hok) as (_ & _ & Hwf).
  split; [exact Hwf | now apply make_table_wellformed].
Qed.

End DiskModuleOutcomes.


Lemma disk_section_renders_witness :
  exists body plain,
    make_table DiskModule.title DiskModule.headers
      [[CStr "/" ; CStr "244.1 KiB" ; CStr "" ; CStr "25.00%"] ;
       [CStr "TOTAL" ; CStr "244.1 KiB" ; CStr "976.6 KiB" ; CStr "25.00%"]]
    = Ok (body, plain).
Proof.
  apply (disk_section_renders two_disks ["/"]). vm_compute. reflexivity.
Defined.

(** ** The aggregation loop: what a run produces *)

Section AggregatorOutcomes.

Variable platform : string.

Lemma loop_outcome (ms : list ModuleClass) (i : nat) (body plain : string)
  (trace : list event) :
  match snd (loop platform i ms body plain trace) with
  | Completed body' plain' =>
      exists secs,
        supported_sections platform ms = map Some secs /\
        body' = body ++ str_concat (map fst secs) /\
        plain' = plain ++ str_concat (map snd secs)
  | Aborted _ => Exists (fun o => o = None) (supported_sections platform ms)
  end.
Proof.
  revert i body plain trace.
  induction ms as [|m ms IH]; intros i body plain trace.
  - cbn. exists []. cbn. now rewrite !append_nil_r.
  - cbn [loop]. unfold supported_sections in *. cbn [filter].
    destruct (supported platform m); [|apply IH].
    cbn [map]. unfold section_of at 1 3.
    destruct (get_data m) as [data|e]; [|now apply Exists_cons_hd].
    destruct (make_table (title m) (headers m) data) as [[b p]|e];
      [|now apply Exists_cons_hd].
    specialize (IH (S i) (body ++ b) (plain ++ p) (trace ++ [EvGetData i])%list).
    destruct (snd (loop platform (S i) ms (body ++ b) (plain ++ p)
                     (trace ++ [EvGetData i])%list)) as [body' plain'|e].
    + destruct IH as (secs & Hsecs & -> & ->).
      exists ((b, p) :: secs). cbn [map str_concat fold_right fst snd].
      rewrite Hsecs. now rewrite !append_assoc.
    + now apply Exists_cons_tl.
Qed.

(** X10: the report of a run that completes is made of the sections of
    the modules the platform supports and of nothing else, in the order of
    the modules: body and plain text are the concatenations of their
    bodies and of their plain texts. *)
Theorem report_is_concatenation (modules : list ModuleClass) (body plain : string) :
  snd (main platform modules) = Completed body plain ->
  exists secs,
    supported_sections platform modules = map Some secs /\
    body = str_concat (map fst secs) /\
    plain = str_concat (map snd secs).
Proof.
  intros Hdone. pose proof (loop_outcome modules 0 "" "" []) as H.
  unfold main in Hdone. rewrite Hdone in H. exact H.
Qed.

Lemma main_completes_iff (modules : list ModuleClass) :
  (exists body plain, snd (main platform modules) = Completed body plain) <->
  Forall (fun o => o <> None) (supported_sections platform modules).
Proof.
  pose proof (loop_outcome modules 0 "" "" []) as H. unfold main. split.
  - intros (body & plain & Hdone). rewrite Hdone in H.
    destruct H as (secs & -> & _). apply Forall_forall.
    intros o Ho. apply in_map_iff in Ho. destruct Ho as (sec & <- & _). discriminate.
  - intros Hall. destruct (snd (loop platform 0 modules "" "" [])) as [body plain|e].
    + eauto.
    + exfalso. apply Exists_exists in H. destruct H as (o & Ho & ->).
      rewrite Forall_forall in Hall. now apply (Hall None Ho).
Qed.

(** X11: a run completes exactly when every module the platform supports
    can be collected and rendered, and is aborted by an exception exactly
    when one of them cannot; the modules the platform does not support
    play no part. *)
Theorem report_completes_iff (modules : list ModuleClass) :
  ((exists body plain, snd (main platform modules) = Completed body plain) <->
   Forall (fun o => o <> None) (supported_sections platform modules)) /\
  ((exists e, snd (main platform modules) = Aborted e) <->
   Exists (fun o => o = None) (supported_sections platform modules)).
Proof.
  split; [apply main_completes_iff|].
  pose proof (loop_outcome modules 0 "" "" []) as H. unfold main in *. split.
  - intros (e & Habort). now rewrite Habort in H.
  - intros Hnone.
    destruct (snd (loop platform 0 modules "" "" [])) as [body plain|e]; [|eauto].
    exfalso. destruct H as (secs & Hsecs & _). rewrite Hsecs in Hnone.
    apply Exists_exists in Hnone. destruct Hnone as (o & Ho & ->).
    apply in_map_iff in Ho. destruct Ho as (sec & Hsec & _). discriminate.
Qed.

Lemma firstn_seq_min (n i len : nat) : firstn n (seq i len) = seq i (Nat.min n len).
Proof.
  revert i len; induction n as [|n IH]; intros i len; [reflexivity|].
  destruct len as [|len]; [reflexivity|].
  cbn [seq firstn Nat.min]. now rewrite IH.
Qed.

Lemma gate_events_indices (ms : list ModuleClass) (i : nat) :
  map index_of (gate_events platform i ms) = seq i (List.length ms).
Proof.
  revert i; induction ms as [|m ms IH]; intros i; cbn [gate_events map List.length seq].
  - reflexivity.
  - now rewrite index_of_gate_event, IH.
Qed.

Lemma gate_events_print (ms : list ModuleClass) (i j : nat) (line : string) :
  In (EvPrint j line) (gate_events platform i ms) ->
  exists m, (i <= j)%nat /\ nth_error ms (j - i) = Some m /\
            supported platform m = false /\ line = skip_notice m platform.
Proof.
  revert i; induction ms as [|m ms IH]; intros i; cbn [gate_events]; [contradiction|].
  intros [H|H].
  - unfold gate_event in H. destruct (supported platform m) eqn:Hs; [discriminate|].
    injection H as <- <-. exists m. rewrite Nat.sub_diag. auto.
  - destruct (IH _ H) as (m' & Hle & Hnth & Hs & Hline).
    exists m'. split; [lia|]. split; [|auto].
    replace (j - i)%nat with (S (j - S i)) by lia. exact Hnth.
Qed.

(** X12: in every run, aborted or not, the modules are handled in their
    order and once each: the event of rank [k] belongs to the module at
    position [k].  A line is printed only for a module the platform does
    not support, and it is that module's skip notice. *)
Theorem run_follows_module_order (modules : list ModuleClass) :
  map index_of (fst (main platform modules))
    = seq 0 (List.length (fst (main platform modules))) /\
  (List.length (fst (main platform modules)) <= List.length modules)%nat /\
  (forall i line,
      In (EvPrint i line) (fst (main platform modules)) ->
      exists module,
        nth_error modules i = Some module /\
        supported platform module = false /\
        line = skip_notice module platform).
Proof.
  unfold main. destruct (loop_trace_prefix platform modules 0 "" "" []) as [n Hn].
  rewrite Hn. cbn [app].
  assert (Hlen : List.length (gate_events platform 0 modules) = List.length modules).
  { rewrite <- (length_map index_of), gate_events_indices. apply length_seq. }
  split; [|split].
  - rewrite <- firstn_map, gate_events_indices, firstn_seq_min, length_firstn, Hlen.
    reflexivity.
  - rewrite length_firstn. lia.
  - intros i line Hin.
    assert (Hall : In (EvPrint i line) (gate_events platform 0 modules)).
    { rewrite <- (firstn_skipn n (gate_events platform 0 modules)).
      apply in_or_app. now left. }
    apply gate_events_print in Hall. destruct Hall as (m & _ & Hm & Hs & Hline).
    rewrite Nat.sub_0_r in Hm. eauto.
Qed.

(** X13: a module that returns a row of another length than its headers
    stops the whole run as a raising module does: the failed assertion of
    [make_table] goes through the loop, and the sections gathered so far
    are lost. *)
Theorem malformed_rows_abort_run
  (ms1 : list ModuleClass) (module : ModuleClass) (ms2 : list ModuleClass)
  (data : list row) (body plain : string) :
  snd (main platform ms1) = Completed body plain ->
  supported platform module = true ->
  get_data module = Ok data ->
  Exists (fun line => List.length line <> List.length (headers module)) data ->
  main platform (ms1 ++ module :: ms2) =
  ((fst (main platform ms1) ++ [EvGetData (List.length ms1)])%list, Aborted AssertionError).
Proof.
  unfold main. intros Hpre Hsup Hdata Hbad. rewrite loop_app.
  destruct (loop platform 0 ms1 "" "" []) as [trace out]. cbn [fst snd] in *.
  subst out. cbn [loop]. rewrite Hsup, Hdata.
  now rewrite (make_table_malformed _ _ _ Hbad).
Qed.

Lemma loop_all_unsupported (ms : list ModuleClass) (i : nat) (body plain : string)
  (trace : list event) :
  Forall (fun m => supported platform m = false) ms ->
  loop platform i ms body plain trace =
  ((trace ++ map (fun im => EvPrint (fst im) (skip_notice (snd im) platform))
                 (combine (seq i (List.length ms)) ms))%list,
   Completed body plain).
Proof.
  intros Hall; revert i trace.
  induction Hall as [|m ms Hm _ IH]; intros i trace; cbn [loop].
  - cbn. now rewrite app_nil_r.
  - rewrite Hm, IH. cbn [List.length seq combine map fst snd].
    now rewrite <- app_assoc.
Qed.

(** X14: on a platform none of the modules supports the run completes
    with an empty report: no [get_data()] is called, one skip notice is
    printed per module, in order, and body and plain text are empty. *)
Theorem unsupported_platform_empty_report (modules : list ModuleClass) :
  Forall (fun m => supported platform m = false) modules ->
  main platform modules =
  (map (fun im => EvPrint (fst im) (skip_notice (snd im) platform))
       (combine (seq 0 (List.length modules)) modules),
   Completed "" "").
Proof. intros Hall. unfold main. now rewrite (loop_all_unsupported _ _ _ _ _ Hall). Qed.

End AggregatorOutcomes.

Lemma report_is_concatenation_witness :
  exists body plain secs,
    snd (main "darwin" (MODULES no_apt_host)) = Completed body plain /\
    supported_sections "darwin" (MODULES no_apt_host) = map Some secs /\
    body = str_concat (map fst secs) /\
    plain = str_concat (map snd secs).
Proof.
  destruct (snd (main "darwin" (MODULES no_apt_host))) as [body plain|e] eqn:Hrun;
    [|vm_compute in Hrun; discriminate].
  destruct (report_is_concatenation "darwin" (MODULES no_apt_host) body plain Hrun)
    as (secs & H1 & H2 & H3).
  exists body, plain, secs. auto.
Defined.

Lemma report_completes_iff_witness :
  (exists body plain, snd (main "darwin" (MODULES no_apt_host)) = Completed body plain) /\
  (exists e, snd (main "linux" (MODULES no_apt_host)) = Aborted e).
Proof.
  split.
  - apply (proj1 (report_completes_iff "darwin" (MODULES no_apt_host))).
    vm_compute. repeat constructor; discriminate.
  - apply (proj2 (report_completes_iff "linux" (MODULES no_apt_host))).
    apply Exists_cons_tl. apply Exists_cons_hd. reflexivity.
Defined.

Lemma malformed_rows_abort_run_witness :
  main "linux" [DiskModule_class no_apt_host ; short_row_module ; LogModule_class no_apt_host] =
  ((fst (main "linux" [DiskModule_class no_apt_host]) ++ [EvGetData 1%nat])%list,
   Aborted AssertionError).
Proof.
  refine (malformed_rows_abort_run "linux" [DiskModule_class no_apt_host]
            short_row_module [LogModule_class no_apt_host]
            [[CStr "/dev/sda2"]] _ _ _ _ _ _); try reflexivity.
  apply Exists_cons_hd. simpl. discriminate.
Defined.

Lemma unsupported_platform_empty_report_witness :
  main "win32" (MODULES no_partition_host) =
  ([EvPrint 0 "[Espace disque] module not supported on win32" ;
    EvPrint 1 (skip_notice (AptModule_class no_partition_host) "win32") ;
    EvPrint 2 "[Fichiers logs] module not supported on win32"],
   Completed "" "").
Proof.
  apply (unsupported_platform_empty_report "win32" (MODULES no_partition_host)).
  repeat constructor.
Defined.

(** ** The three modules of the program together *)

Section MonitoringReport.

Variable env : environment.






End MonitoringReport.


(** ** get_base_name: what the pattern matches *)

Section BaseNameFacts.

Lemma run_star_nil (a : Re.atom) (gs : Re.groups)
  (k : string -> Re.groups -> option Re.groups) :
  Re.run (Re.Star a) "" gs k = k "" gs.
Proof. reflexivity. Qed.

Lemma run_star_cons (a : Re.atom) (c : ascii) (s : string) (gs : Re.groups)
  (k : string -> Re.groups -> option Re.groups) :
  Re.run (Re.Star a) (String c s) gs k =
  if Re.atom_matches a c
  then match Re.run (Re.Star a) s gs k with
       | Some gs' => Some gs'
       | None => k (String c s) gs
       end
  else k (String c s) gs.
Proof. reflexivity. Qed.

(** A nullable expression before a continuation that never fails never
    fails. *)
Lemma run_nullable (r : Re.regex) :
  nullable r = true ->
  forall s gs k,
    (forall s' gs', k s' gs' <> None) ->
    Re.run r s gs k <> None.
Proof.
  induction r as [|a|a|r1 IH1|r1 IH1 r2 IH2|n r1 IH1]; intros Hnull s gs k Hk.
  - apply Hk.
  - discriminate.
  - induction s as [|c s IHs].
    + rewrite run_star_nil. apply Hk.
    + rewrite run_star_cons. destruct (Re.atom_matches a c); [|apply Hk].
      destruct (Re.run (Re.Star a) s gs k); [discriminate | apply Hk].
  - cbn [Re.run]. destruct (Re.run r1 s gs k); [discriminate | apply Hk].
  - cbn [nullable] in Hnull. apply andb_true_iff in Hnull. destruct Hnull as [H1 H2].
    cbn [Re.run]. apply IH1; [exact H1|]. intros s' gs'. now apply IH2.
  - cbn [Re.run]. apply IH1; [exact Hnull|]. intros s' gs'. apply Hk.
Qed.

Lemma set_group_keeps_first (n : nat) (v : string) (gs : Re.groups) :
  (2 <= n)%nat -> nth 0 (Re.set_group n v gs) None = nth 0 gs None.
Proof.
  intros Hn. destruct n as [|[|n]]; [lia | lia |].
  destruct gs as [|g gs]; reflexivity.
Qed.

(** An expression without the group 1 leaves the first group as it is. *)
Lemma run_keeps_first (r : Re.regex) :
  keeps_first r = true ->
  forall s gs k v,
    (forall s' gs' res, nth 0 gs' None = v -> k s' gs' = Some res -> nth 0 res None = v) ->
    nth 0 gs None = v ->
    forall res, Re.run r s gs k = Some res -> nth 0 res None = v.
Proof.
  induction r as [|a|a|r1 IH1|r1 IH1 r2 IH2|n r1 IH1]; intros Hkeep s gs k v Hk Hgs res.
  - cbn [Re.run]. now apply Hk.
  - cbn [Re.run]. destruct s as [|c s]; [discriminate|].
    destruct (Re.atom_matches a c); [now apply Hk | discriminate].
  - induction s as [|c s IHs].
    + rewrite run_star_nil. now apply Hk.
    + rewrite run_star_cons. destruct (Re.atom_matches a c); [|now apply Hk].
      destruct (Re.run (Re.Star a) s gs k) as [gs'|].
      * intros H. injection H as <-. now apply IHs.
      * now apply Hk.
  - cbn [Re.run]. destruct (Re.run r1 s gs k) as [gs'|] eqn:Hrun.
    + intros H. injection H as <-. exact (IH1 Hkeep s gs k v Hk Hgs gs' Hrun).
    + now apply Hk.
  - cbn [keeps_first] in Hkeep. apply andb_true_iff in Hkeep. destruct Hkeep as [H1 H2].
    cbn [Re.run]. apply (IH1 H1); [|exact Hgs].
    intros s' gs' res' Hgs'. now apply (IH2 H2).
  - cbn [keeps_first] in Hkeep. apply andb_true_iff in Hkeep. destruct Hkeep as [Hn H1].
    apply Nat.leb_le in Hn.
    cbn [Re.run]. apply (IH1 H1); [|exact Hgs].
    intros s' gs' res' Hgs'. apply Hk. now rewrite set_group_keeps_first.
Qed.

Lemma reg_split :
  LogModule.reg = Re.Seq (Re.Group 1 (Re.Star Re.Dot)) dot_log_re.
Proof. reflexivity. Qed.

Lemma dot_log_none (s : string) (gs : Re.groups)
  (k : string -> Re.groups -> option Re.groups) :
  log_at s = false -> Re.run dot_log_re s gs k = None.
Proof.
  destruct s as [|c [|c1 [|c2 [|c3 rest]]]]; cbn;
    repeat match goal with
           | |- context [Ascii.eqb ?x ?y] => destruct (Ascii.eqb x y)
           end; cbn; congruence.
Qed.

Lemma dot_log_some (s : string) (gs : Re.groups)
  (k : string -> Re.groups -> option Re.groups) :
  log_at s = true ->
  exists rest, Re.run dot_log_re s gs k = Re.run rotation_re rest gs k.
Proof.
  destruct s as [|c [|c1 [|c2 [|c3 rest]]]]; try discriminate.
  intros Hlog. exists rest. unfold log_at in Hlog.
  apply andb_true_iff in Hlog. destruct Hlog as [Hlog H3].
  apply andb_true_iff in Hlog. destruct Hlog as [Hlog H2].
  apply andb_true_iff in Hlog. destruct Hlog as [H0 H1].
  unfold dot_log_re, Re.text. cbn [list_ascii_of_string map Re.cat fold_right Re.run
                                   Re.atom_matches].
  now rewrite H0, H1, H2, H3.
Qed.

Lemma length_append (s t : string) :
  String.length (s ++ t) = (String.length s + String.length t)%nat.
Proof. induction s as [|c s IH]; simpl; [reflexivity | now rewrite IH]. Qed.

Lemma substring_prefix (s t : string) : substring 0 (String.length s) (s ++ t) = s.
Proof.
  induction s as [|c s IH]; simpl.
  - now destruct t.
  - now rewrite IH.
Qed.

Lemma consumed_append (pre t : string) : Re.consumed (pre ++ t) t = pre.
Proof.
  unfold Re.consumed. rewrite length_append.
  replace (String.length pre + String.length t - String.length t)%nat
    with (String.length pre) by lia.
  apply substring_prefix.
Qed.

(** Two ways of cutting one text: the shorter first part is the start of
    the longer one. *)
Lemma append_split (a b c d : string) :
  a ++ b = c ++ d ->
  (String.length a <= String.length c)%nat ->
  exists x, c = a ++ x /\ b = x ++ d.
Proof.
  revert c; induction a as [|ch a IH]; intros c Heq Hlen.
  - exists c. auto.
  - destruct c as [|ch' c]; [simpl in Hlen; lia|].
    simpl in Heq. injection Heq as <- Heq.
    destruct (IH c Heq) as (x & -> & ->); [simpl in Hlen; lia|].
    exists x. auto.
Qed.

Lemma log_at_first_char (c : ascii) (s : string) :
  log_at (String c s) = true -> negb (Ascii.eqb c (ascii_of_nat 10)) = true.
Proof.
  destruct s as [|c1 [|c2 [|c3 rest]]]; try discriminate.
  unfold log_at. destruct (negb (Ascii.eqb c (ascii_of_nat 10))); [reflexivity | discriminate].
Qed.

Lemma last_log_sound (s t : string) :
  last_log s = Some t ->
  log_at t = true /\
  exists pre, s = pre ++ t /\ one_line pre = true /\
              forall pre' t', s = pre' ++ t' -> one_line pre' = true -> log_at t' = true ->
                              (String.length pre' <= String.length pre)%nat.
Proof.
  revert t; induction s as [|c s IH]; intros t; cbn [last_log]; [discriminate|].
  destruct (negb (Ascii.eqb c (ascii_of_nat 10))) eqn:Hc; [|discriminate].
  destruct (last_log s) as [t0|] eqn:Hlast.
  - intros H. injection H as <-.
    destruct (IH t0 eq_refl) as (Hlog & pre & -> & Hpre & Hmax).
    split; [exact Hlog|]. exists (String c pre). split; [reflexivity|].
    split; [cbn [one_line]; now rewrite Hc, Hpre|].
    intros pre' t' Heq Hone Hlog'. destruct pre' as [|c' pre']; [simpl; lia|].
    simpl in Heq. injection Heq as <- Heq. cbn [one_line] in Hone.
    apply andb_true_iff in Hone. destruct Hone as [_ Hone].
    specialize (Hmax pre' t' Heq Hone Hlog'). simpl. lia.
  - destruct (log_at (String c s)) eqn:Hlog; [|discriminate].
    intros H. injection H as <-. split; [exact Hlog|].
    exists "". split; [reflexivity|]. split; [reflexivity|].
    intros pre' t' Heq Hone Hlog'. destruct pre' as [|c' pre']; [simpl; lia|].
    exfalso. simpl in Heq. injection Heq as <- Heq. cbn [one_line] in Hone.
    apply andb_true_iff in Hone. destruct Hone as [_ Hone].
    clear IH. revert pre' t' Heq Hone Hlog'.
    enough (Hnone : forall u pre' t', last_log u = None -> u = pre' ++ t' ->
                                      one_line pre' = true -> log_at t' = true -> False)
      by (intros pre' t'; apply (Hnone s pre' t' Hlast)).
    clear. induction u as [|c u IHu]; intros pre' t' Hnone Heq Hone Hlog'.
    + destruct pre'; [|discriminate]. simpl in Heq. subst t'. discriminate.
    + cbn [last_log] in Hnone.
      destruct pre' as [|c' pre'].
      * simpl in Heq. subst t'.
        rewrite (log_at_first_char _ _ Hlog') in Hnone.
        destruct (last_log u); [discriminate|]. now rewrite Hlog' in Hnone.
      * simpl in Heq. injection Heq as <- Heq. cbn [one_line] in Hone.
        apply andb_true_iff in Hone. destruct Hone as [Hc Hone].
        rewrite Hc in Hnone.
        destruct (last_log u) eqn:Hu; [discriminate|].
        exact (IHu pre' t' eq_refl Heq Hone Hlog').
Qed.

Lemma last_log_none (s : string) :
  last_log s = None ->
  forall pre t, s = pre ++ t -> one_line pre = true -> log_at t = false.
Proof.
  induction s as [|c s IH]; intros Hnone pre t Heq Hone.
  - destruct pre; [|discriminate]. simpl in Heq. now subst t.
  - cbn [last_log] in Hnone. destruct pre as [|c' pre].
    + simpl in Heq. subst t.
      destruct (log_at (String c s)) eqn:Hlog; [|reflexivity].
      rewrite (log_at_first_char _ _ Hlog) in Hnone.
      destruct (last_log s); discriminate.
    + simpl in Heq. injection Heq as <- Heq. cbn [one_line] in Hone.
      apply andb_true_iff in Hone. destruct Hone as [Hc Hone].
      rewrite Hc in Hnone.
      destruct (last_log s) eqn:Hs; [discriminate|].
      exact (IH eq_refl pre t Heq Hone).
Qed.

(** The continuation of the first group of the pattern on the file name
    [f]: it records what the star has taken and goes on with the rest. *)
Lemma first_group_continuation (f t : string) (gs : Re.groups) :
  (log_at t = false ->
   Re.run dot_log_re t (Re.set_group 1 (Re.consumed f t) gs) (fun _ gs' => Some gs') = None) /\
  (log_at t = true ->
   exists res,
     Re.run dot_log_re t (Re.set_group 1 (Re.consumed f t) gs) (fun _ gs' => Some gs')
       = Some res /\
     nth 0 res None = nth 0 (Re.set_group 1 (Re.consumed f t) gs) None).
Proof.
  split; intros Hlog.
  - now apply dot_log_none.
  - destruct (dot_log_some t (Re.set_group 1 (Re.consumed f t) gs)
                (fun _ gs' => Some gs') Hlog) as [rest ->].
    destruct (Re.run rotation_re rest (Re.set_group 1 (Re.consumed f t) gs)
                (fun _ gs' => Some gs')) as [res|] eqn:Hrun.
    + exists res. split; [reflexivity|].
      refine (run_keeps_first rotation_re eq_refl rest
                (Re.set_group 1 (Re.consumed f t) gs) (fun _ gs' => Some gs')
                (nth 0 (Re.set_group 1 (Re.consumed f t) gs) None) _ eq_refl res Hrun).
      intros s' gs' res' Hgs' H. now injection H as <-.
    + exfalso. revert Hrun. apply run_nullable; [reflexivity | discriminate].
Qed.

Lemma star_dot_last_log (f s : string) (gs : Re.groups) :
  Re.run (Re.Star Re.Dot) s gs
    (fun s' gs' => Re.run dot_log_re s' (Re.set_group 1 (Re.consumed f s') gs')
                     (fun _ gs'' => Some gs'')) =
  match last_log s with
  | Some t => Re.run dot_log_re t (Re.set_group 1 (Re.consumed f t) gs)
                (fun _ gs'' => Some gs'')
  | None => None
  end.
Proof.
  induction s as [|c s IH].
  - rewrite run_star_nil. now apply dot_log_none.
  - rewrite run_star_cons. cbn [last_log Re.atom_matches].
    destruct (negb (Ascii.eqb c (ascii_of_nat 10))) eqn:Hc.
    + rewrite IH. destruct (last_log s) as [t|] eqn:Hlast.
      * destruct (last_log_sound s t Hlast) as [Hlog _].
        destruct (proj2 (first_group_continuation f t gs) Hlog) as (res & -> & _).
        reflexivity.
      * destruct (log_at (String c s)) eqn:Hlog; [reflexivity|].
        now apply dot_log_none.
    + apply dot_log_none.
      destruct (log_at (String c s)) eqn:Hlog; [|reflexivity].
      apply log_at_first_char in Hlog. congruence.
Qed.

(** [get_base_name] cuts the file name at the last place of its first
    line where a character and [log] stand. *)
Lemma get_base_name_last_log (f : string) :
  LogModule.get_base_name f = option_map (Re.consumed f) (last_log f).
Proof.
  unfold LogModule.get_base_name, Re.match_. rewrite reg_split.
  change (Re.run (Re.Seq (Re.Group 1 (Re.Star Re.Dot)) dot_log_re) f
            (repeat None (Re.count_groups (Re.Seq (Re.Group 1 (Re.Star Re.Dot)) dot_log_re)))
            (fun _ gs => Some gs))
    with (Re.run (Re.Star Re.Dot) f [None ; None ; None ; None]
            (fun s' gs' => Re.run dot_log_re s' (Re.set_group 1 (Re.consumed f s') gs')
                             (fun _ gs'' => Some gs''))).
  rewrite (star_dot_last_log f f [None ; None ; None ; None]).
  destruct (last_log f) as [t|] eqn:Hlast; [|reflexivity].
  destruct (last_log_sound f t Hlast) as [Hlog _].
  destruct (proj2 (first_group_continuation f t [None ; None ; None ; None]) Hlog)
    as (res & -> & Hres).
  cbn [option_map]. rewrite Hres. reflexivity.
Qed.

(** X16: [get_base_name] returns the longest start of the file name that
    holds no newline and is followed by one character other than a
    newline and then [log]; it returns [None] exactly when the first line
    of the name has no such place.  The character before [log] need not be
    a dot, and what follows [log] plays no part. *)
Theorem get_base_name_longest_prefix (filename : string) :
  match LogModule.get_base_name filename with
  | Some base =>
      exists rest,
        filename = base ++ rest /\ one_line base = true /\ log_at rest = true /\
        forall base' rest',
          filename = base' ++ rest' -> one_line base' = true -> log_at rest' = true ->
          (String.length base' <= String.length base)%nat
  | None =>
      forall base rest,
        filename = base ++ rest -> one_line base = true -> log_at rest = false
  end.
Proof.
  rewrite get_base_name_last_log.
  destruct (last_log filename) as [t|] eqn:Hlast; cbn [option_map].
  - destruct (last_log_sound filename t Hlast) as (Hlog & pre & Heq & Hone & Hmax).
    subst filename. rewrite consumed_append. exists t. auto.
  - now apply last_log_none.
Qed.

Lemma any_log_at_false (s : string) :
  any_log_at s = false -> forall x t, s = x ++ t -> log_at t = false.
Proof.
  induction s as [|c s IH]; intros Hany x t Heq.
  - destruct x; [|discriminate]. simpl in Heq. now subst t.
  - cbn [any_log_at] in Hany. apply orb_false_iff in Hany. destruct Hany as [Hhere Hlater].
    destruct x as [|c' x].
    + simpl in Heq. now subst t.
    + simpl in Heq. injection Heq as <- Heq. now apply (IH Hlater x t).
Qed.

Lemma rotation_suffixes_log_free (suffix : string) :
  In suffix rotation_suffixes -> any_log_at ("log" ++ suffix) = false.
Proof.
  intros Hin.
  assert (Hall : forallb (fun sfx => negb (any_log_at ("log" ++ sfx))) rotation_suffixes = true)
    by (vm_compute; reflexivity).
  rewrite forallb_forall in Hall. specialize (Hall suffix Hin).
  now apply negb_true_iff in Hall.
Qed.

(** X17: when nothing after [.log] reads as a character and [log] again,
    [get_base_name] returns all that stands before [.log], whatever dots
    or [log]s it holds, provided it holds no newline.  This is so for each
    of the 44 endings the optional groups of the pattern describe: a dot
    and a digit or nothing, [.gz] or nothing, [.bz2] or nothing. *)
Theorem get_base_name_strips_suffix (base suffix : string) :
  one_line base = true ->
  In suffix rotation_suffixes \/ any_log_at ("log" ++ suffix) = false ->
  LogModule.get_base_name (base ++ ".log" ++ suffix) = Some base.
Proof.
  intros Hone Hsuffix.
  assert (Hfree : any_log_at ("log" ++ suffix) = false).
  { destruct Hsuffix as [Hin|Hfree]; [now apply rotation_suffixes_log_free | exact Hfree]. }
  rewrite get_base_name_last_log.
  destruct (last_log (base ++ ".log" ++ suffix)) as [t|] eqn:Hlast; cbn [option_map].
  - destruct (last_log_sound _ _ Hlast) as (Hlog & pre & Heq & _ & Hmax).
    assert (Hlen : (String.length base <= String.length pre)%nat).
    { apply (Hmax base (".log" ++ suffix) eq_refl Hone). reflexivity. }
    destruct (append_split _ _ _ _ Heq Hlen) as (x & -> & Hx).
    destruct x as [|c x].
    + rewrite Heq, consumed_append. now rewrite append_nil_r.
    + exfalso. simpl in Hx. injection Hx as _ Hx.
      rewrite (any_log_at_false _ Hfree x t Hx) in Hlog. discriminate.
  - exfalso.
    pose proof (last_log_none _ Hlast base (".log" ++ suffix) eq_refl Hone) as Hnone.
    discriminate Hnone.
Qed.

End BaseNameFacts.

Lemma get_base_name_longest_prefix_witness :
  exists rest, "catalog.txt" = "cat" ++ rest /\ log_at rest = true.
Proof.
  pose proof (get_base_name_longest_prefix "catalog.txt") as H.
  change (LogModule.get_base_name "catalog.txt") with (Some "cat") in H.
  destruct H as (rest & H1 & _ & H3 & _). exists rest. auto.
Defined.

Lemma get_base_name_strips_suffix_witness :
  LogModule.get_base_name "my.log.app.log.3.gz" = Some "my.log.app" /\
  LogModule.get_base_name "syslog.log-old" = Some "syslog".
Proof.
  split.
  - apply (get_base_name_strips_suffix "my.log.app" ".3.gz"); [reflexivity|].
    left. vm_compute. tauto.
  - apply (get_base_name_strips_suffix "syslog" "-old"); [reflexivity|].
    right. reflexivity.
Defined.

(** ** LogModule.get_data: groups of the same size *)

Section TieOrder.

Import LogModule.

Lemma filter_insert (z : Z) (x : item) (l : list item) :
  filter (fun it => size it =? z) (insert x l) = filter (fun it => size it =? z) (x :: l).
Proof.
  induction l as [|y l IH]; [reflexivity|].
  cbn [insert]. destruct (Z.leb_spec (size x) (size y)) as [Hle|Hgt]; [reflexivity|].
  cbn [filter] in *. rewrite IH.
  destruct (Z.eqb_spec (size x) z), (Z.eqb_spec (size y) z); try reflexivity. lia.
Qed.

Lemma filter_sorted (z : Z) (l : list item) :
  filter (fun it => size it =? z) (sorted l) = filter (fun it => size it =? z) l.
Proof.
  induction l as [|x l IH]; [reflexivity|].
  cbn [sorted]. rewrite filter_insert. cbn [filter]. now rewrite IH.
Qed.

(** X18: groups of the same total size come in the reverse of the order in
    which the dictionary got them: of two such groups the one whose first
    file was listed last is ranked first, since the stable sort is
    reversed as a whole. *)
Theorem equal_sizes_reversed (z : Z) (files : list DirEntry) :
  filter (fun it => size it =? z) (ranked files)
    = rev (filter (fun it => size it =? z) (map item_of (scan files))).
Proof.
  unfold ranked. rewrite <- (filter_sorted z (map item_of (scan files))).
  generalize (sorted (map item_of (scan files))) as l.
  induction l as [|x l IH]; [reflexivity|].
  cbn [rev filter]. rewrite filter_app, IH. cbn [filter].
  destruct (size x =? z); [reflexivity | now rewrite app_nil_r].
Qed.

End TieOrder.

(** ** sizeof_fmt and the percentages: sizes and ratios that print exactly *)

Lemma below_one_kib_all (n : Z) : -1024 < n < 1024 -> In n below_one_kib.
Proof.
  intros Hn. unfold below_one_kib. apply in_map_iff.
  exists (Z.to_nat (n + 1023)). split; [lia|]. apply in_seq. lia.
Qed.

(** X19: a size below 1024 in absolute value is printed as it is, with
    [.0] and the unit [B]: no division takes place and nothing is
    rounded. *)
Theorem sizeof_fmt_bytes (n : Z) :
  -1024 < n < 1024 -> sizeof_fmt n = str_of_Z n ++ ".0 B".
Proof.
  intros Hn. apply below_one_kib_all in Hn.
  assert (Hall : forallb (fun k => String.eqb (sizeof_fmt k) (str_of_Z k ++ ".0 B"))
                         below_one_kib = true) by (vm_compute; reflexivity).
  rewrite forallb_forall in Hall. now apply String.eqb_eq, Hall.
Qed.

Lemma sizeof_fmt_bytes_witness : sizeof_fmt 1023 = "1023.0 B" /\ sizeof_fmt (-7) = "-7.0 B".
Proof.
  split.
  - apply (sizeof_fmt_bytes 1023). lia.
  - apply (sizeof_fmt_bytes (-7)). lia.
Defined.

Lemma round53_same (a : Z) : 0 < a -> Float.round53 a a = Float.mk (2 ^ 52) (-52).
Proof.
  intros Ha. unfold Float.round53.
  destruct (Z.eqb_spec a 0) as [|_]; [lia|].
  rewrite (Z.abs_eq a) by lia.
  replace (Z.log2 a - Z.log2 a - 53) with (-53) by lia.
  change (-53 <? 0) with true. cbn iota.
  change (- -53) with 53.
  replace (a * 2 ^ 53 / a) with (2 ^ 53) by (rewrite Z.mul_comm, Z.div_mul; lia).
  change (2 ^ 53 <? 2 ^ 53) with false. cbn iota.
  rewrite (Z.sgn_pos a) by lia.
  change (-53 + 1) with (-52).
  unfold Float.rne.
  replace (a * 2 ^ 53) with (2 ^ 52 * (2 * a)) by (change (2 ^ 53) with (2 ^ 52 * 2); lia).
  rewrite Z.div_mul, Z.mod_mul by lia.
  destruct (Z.ltb_spec (2 * 0) (2 * a)); [|lia].
  now rewrite Z.mul_1_l.
Qed.

(** X20: the two ends of the percentage column: a partition nothing of
    which is used shows [0.00%] and a partition all of which is used shows
    [100.00%], whatever its capacity; a capacity of zero raises
    [ZeroDivisionError]. *)
Theorem format_percent_ends (total : Z) :
  (total <> 0 -> format_percent 0 total = Ok "0.00%") /\
  (total <> 0 -> format_percent total total = Ok "100.00%") /\
  (forall used, format_percent used 0 = Raise ZeroDivisionError).
Proof.
  split; [|split].
  - intros Hne. unfold format_percent.
    destruct (Z.eqb_spec total 0); [contradiction|].
    unfold percent, Float.int_truediv. now destruct (total <? 0).
  - intros Hne. unfold format_percent.
    destruct (Z.eqb_spec total 0); [contradiction|].
    unfold percent, Float.int_truediv.
    destruct (Z.ltb_spec total 0).
    + rewrite round53_same by lia. reflexivity.
    + rewrite round53_same by lia. reflexivity.
  - reflexivity.
Qed.

Lemma format_percent_ends_witness :
  format_percent 0 512110190592 = Ok "0.00%" /\
  format_percent 512110190592 512110190592 = Ok "100.00%".
Proof.
  destruct (format_percent_ends 512110190592) as (Hnone & Hall & _).
  split; [apply Hnone | apply Hall]; discriminate.
Defined.

(** ** sizeof_fmt on the sizes a double holds exactly *)

Section SizeofFmtExact.

Lemma rne_scale (c a d : Z) :
  0 < c -> 0 < d -> Float.rne (c * a) (c * d) = Float.rne a d.
Proof.
  intros Hc Hd. unfold Float.rne.
  rewrite Z.div_mul_cancel_l by lia.
  rewrite Z.mul_mod_distr_l by lia.
  destruct (Z.ltb_spec (2 * (c * (a mod d))) (c * d)),
           (Z.ltb_spec (2 * (a mod d)) d); try reflexivity; try nia.
  destruct (Z.ltb_spec (c * d) (2 * (c * (a mod d)))),
           (Z.ltb_spec d (2 * (a mod d))); try reflexivity; nia.
Qed.

Lemma rne_double (m : Z) : Float.rne (2 * m) 2 = m.
Proof.
  unfold Float.rne.
  rewrite (Z.mul_comm 2 m), Z.div_mul, Z.mod_mul by lia. reflexivity.
Qed.

Lemma log2_below_53 (n : Z) : 0 < n < 2 ^ 53 -> 0 <= Z.log2 n <= 52.
Proof.
  intros Hn. split; [apply Z.log2_nonneg|].
  assert (Z.log2 n < 53) by (apply Z.log2_lt_pow2; lia). lia.
Qed.

(** [float(n)] is [n] itself for an [int] below [2 ^ 53]. *)
Lemma of_int_exact (n : Z) :
  0 < n < 2 ^ 53 ->
  Float.of_int n = Float.mk (n * 2 ^ (52 - Z.log2 n)) (Z.log2 n - 52).
Proof.
  intros Hn. pose proof (log2_below_53 n Hn) as Hl.
  pose proof (Z.log2_spec n (proj1 Hn)) as [Hlow _].
  unfold Float.of_int, Float.round53.
  destruct (Z.eqb_spec n 0) as [|_]; [lia|].
  rewrite (Z.abs_eq n) by lia.
  change (Z.log2 1) with 0.
  destruct (Z.ltb_spec (Z.log2 n - 0 - 53) 0) as [_|]; [|lia].
  rewrite Z.div_1_r.
  replace (- (Z.log2 n - 0 - 53)) with (53 - Z.log2 n) by lia.
  assert (Hbig : 2 ^ 53 <= n * 2 ^ (53 - Z.log2 n)).
  { replace (2 ^ 53) with (2 ^ Z.log2 n * 2 ^ (53 - Z.log2 n))
      by (rewrite <- Z.pow_add_r by lia; f_equal; lia).
    apply Z.mul_le_mono_nonneg_r; [apply Z.pow_nonneg; lia | exact Hlow]. }
  destruct (Z.ltb_spec (n * 2 ^ (53 - Z.log2 n)) (2 ^ 53)) as [|_]; [lia|].
  rewrite (Z.sgn_pos n) by lia.
  replace (n * 2 ^ (53 - Z.log2 n)) with (2 * (n * 2 ^ (52 - Z.log2 n))).
  - rewrite rne_double. f_equal; lia.
  - replace (53 - Z.log2 n) with (Z.succ (52 - Z.log2 n)) by lia.
    rewrite Z.pow_succ_r by lia. lia.
Qed.

Lemma digit_length (d : Z) : 0 <= d < 10 -> String.length (str_of_Z d) = 1%nat.
Proof.
  intros Hd.
  assert (H : d = 0 \/ d = 1 \/ d = 2 \/ d = 3 \/ d = 4 \/ d = 5 \/ d = 6 \/ d = 7
              \/ d = 8 \/ d = 9) by lia.
  repeat (destruct H as [->|H]; [reflexivity|]). now subst d.
Qed.

(** The double [n * 2 ^ p * 2 ^ -(p + t)], that is [n / 2 ^ t], against
    [1024.0] and under ["%.1f"]. *)
Lemma scaled_abs_lt_1024 (n p t : Z) :
  0 < n -> 0 <= p -> 0 <= t -> 0 < p + t ->
  Float.abs_lt_1024 (Float.mk (n * 2 ^ p) (- (p + t))) = (n <? 1024 * 2 ^ t).
Proof.
  intros Hn Hp Ht Hpt. unfold Float.abs_lt_1024, Float.frac. cbn [Float.fm Float.fe].
  destruct (Z.ltb_spec (- (p + t)) 0) as [_|]; [|lia].
  rewrite Z.opp_involutive, Z.pow_add_r by lia.
  assert (Hpow : 0 < 2 ^ p) by (apply Z.pow_pos_nonneg; lia).
  assert (Hpow' : 0 < 2 ^ t) by (apply Z.pow_pos_nonneg; lia).
  rewrite Z.abs_eq by nia.
  destruct (Z.ltb_spec (n * 2 ^ p) (1024 * (2 ^ p * 2 ^ t))),
           (Z.ltb_spec n (1024 * 2 ^ t)); try reflexivity; nia.
Qed.

Lemma scaled_format (n p t : Z) :
  0 < n -> 0 <= p -> 0 <= t ->
  Float.format_f 1 (Float.mk (n * 2 ^ p) (- (p + t)))
    = one_decimal (Float.rne (n * 10) (2 ^ t)).
Proof.
  intros Hn Hp Ht.
  assert (Hpow : 0 < 2 ^ p) by (apply Z.pow_pos_nonneg; lia).
  assert (Hpow' : 0 < 2 ^ t) by (apply Z.pow_pos_nonneg; lia).
  assert (Hs : forall s, 0 <= s ->
             "" ++ str_of_Z (s / 10 ^ Z.of_nat 1) ++ "."
                ++ Float.zero_pad 1 (str_of_Z (s mod 10 ^ Z.of_nat 1)) = one_decimal s).
  { intros s Hs. change (10 ^ Z.of_nat 1) with 10. unfold one_decimal, Float.zero_pad.
    rewrite (digit_length (s mod 10)) by (apply Z.mod_pos_bound; lia).
    reflexivity. }
  assert (Hrne : forall a d, 0 <= a -> 0 < d -> 0 <= Float.rne a d).
  { intros a d Ha Hd. unfold Float.rne.
    pose proof (Z.div_pos a d Ha Hd).
    destruct (2 * (a mod d) <? d); [lia|].
    destruct (d <? 2 * (a mod d)); [lia|].
    destruct (Z.even (a / d)); lia. }
  unfold Float.format_f, Float.frac. cbn [Float.fm Float.fe].
  destruct (Z.ltb_spec (- (p + t)) 0) as [Hneg|Hzero].
  - rewrite Z.opp_involutive, Z.pow_add_r by lia.
    destruct (Z.ltb_spec (n * 2 ^ p) 0) as [|_]; [nia|].
    rewrite Z.abs_eq by nia.
    replace (n * 2 ^ p * 10 ^ Z.of_nat 1) with (2 ^ p * (n * 10))
      by (change (10 ^ Z.of_nat 1) with 10; lia).
    rewrite rne_scale by lia.
    apply Hs, Hrne; lia.
  - assert (p = 0) by lia. assert (t = 0) by lia. subst p t.
    change (- (0 + 0)) with 0. change (2 ^ 0) with 1.
    rewrite !Z.mul_1_r.
    destruct (Z.ltb_spec n 0) as [|_]; [lia|].
    rewrite Z.abs_eq by lia.
    change (10 ^ Z.of_nat 1) with 10.
    apply (Hs (Float.rne (n * 10) 1)), Hrne; lia.
Qed.

Lemma pow_1024 (z : Z) : 0 <= z -> 1024 ^ z = 2 ^ (10 * z).
Proof. intros Hz. rewrite Z.pow_mul_r by lia. reflexivity. Qed.

(** The loop once [num] is a double: it stops at the unit of rank [i]
    from here when [n] lies between the powers of 1024 of that rank. *)
Lemma sizeof_fmt_loop_unit (n p : Z) (us : list string) :
  0 < n -> 0 <= p ->
  forall (j : Z) (i : nat),
    1 <= j -> (i < List.length us)%nat ->
    2 ^ (10 * (j + Z.of_nat i)) <= n < 2 ^ (10 * (j + Z.of_nat i + 1)) ->
    sizeof_fmt_loop us (PyFloat (Float.mk (n * 2 ^ p) (- (p + 10 * j)))) "B"
      = one_decimal (Float.rne (n * 10) (2 ^ (10 * (j + Z.of_nat i))))
          ++ " " ++ nth i us "" ++ "B".
Proof.
  intros Hn Hp. induction us as [|unit us IH]; intros j i Hj Hi Hbounds.
  - simpl in Hi. lia.
  - cbn [sizeof_fmt_loop abs_lt_1024 to_float].
    rewrite scaled_abs_lt_1024 by lia.
    replace (1024 * 2 ^ (10 * j)) with (2 ^ (10 * (j + 1)))
      by (replace (10 * (j + 1)) with (10 + 10 * j) by lia;
          rewrite Z.pow_add_r by lia; reflexivity).
    destruct i as [|i].
    + cbn [Z.of_nat nth] in *. rewrite Z.add_0_r in Hbounds.
      destruct (Z.ltb_spec n (2 ^ (10 * (j + 1)))) as [_|]; [|lia].
      rewrite scaled_format by lia. now rewrite Z.add_0_r.
    + assert (Hle : 2 ^ (10 * (j + 1)) <= 2 ^ (10 * (j + Z.of_nat (S i))))
        by (apply Z.pow_le_mono_r; lia).
      destruct (Z.ltb_spec n (2 ^ (10 * (j + 1)))) as [|_]; [lia|].
      unfold div_1024, Float.div1024. cbn [to_float Float.fm Float.fe nth].
      replace (- (p + 10 * j) - 10) with (- (p + 10 * (j + 1))) by lia.
      replace (j + Z.of_nat (S i)) with (j + 1 + Z.of_nat i) in * by lia.
      rewrite (IH (j + 1) i); [reflexivity|lia|simpl in Hi; lia|exact Hbounds].
Qed.

Lemma sizeof_fmt_first (n : Z) :
  sizeof_fmt n =
  if Z.abs n <? 1024
  then Float.format_f 1 (Float.of_int n) ++ " " ++ "" ++ "B"
  else sizeof_fmt_loop (tl units) (PyFloat (Float.div1024 (Float.of_int n))) "B".
Proof. reflexivity. Qed.

(** X21: for a size [n] a double holds exactly, from 1 to [2 ^ 53 - 1],
    [sizeof_fmt] prints the unit of the power of 1024 that [n] reaches
    and, before it, [n] divided by that power and rounded to the nearest
    tenth, a tie going to the even tenth. *)
Theorem sizeof_fmt_exact (n : Z) (k : nat) :
  0 < n < 2 ^ 53 ->
  1024 ^ Z.of_nat k <= n < 1024 ^ Z.of_nat (S k) ->
  sizeof_fmt n
    = one_decimal (Float.rne (n * 10) (1024 ^ Z.of_nat k)) ++ " " ++ nth k units "" ++ "B".
Proof.
  intros Hn Hk. pose proof (log2_below_53 n Hn) as Hl.
  rewrite !pow_1024 in * by lia.
  assert (Hrank : (k < 6)%nat).
  { destruct (Nat.lt_ge_cases k 6) as [|Hge]; [assumption|]. exfalso.
    assert (2 ^ 60 <= 2 ^ (10 * Z.of_nat k)) by (apply Z.pow_le_mono_r; lia).
    assert (2 ^ 53 < 2 ^ 60) by reflexivity. lia. }
  rewrite sizeof_fmt_first, Z.abs_eq by lia.
  rewrite (of_int_exact n Hn).
  destruct k as [|k].
  - change (2 ^ (10 * Z.of_nat 1)) with 1024 in Hk.
    destruct (Z.ltb_spec n 1024) as [_|]; [|lia].
    replace (Z.log2 n - 52) with (- (52 - Z.log2 n + 0)) by lia.
    rewrite scaled_format by lia. reflexivity.
  - assert (H1024 : 1024 <= 2 ^ (10 * Z.of_nat (S k))).
    { change 1024 with (2 ^ 10). apply Z.pow_le_mono_r; lia. }
    destruct (Z.ltb_spec n 1024) as [|_]; [lia|].
    unfold Float.div1024. cbn [Float.fm Float.fe].
    replace (Z.log2 n - 52 - 10) with (- (52 - Z.log2 n + 10 * 1)) by lia.
    replace (Z.of_nat (S (S k))) with (1 + Z.of_nat k + 1) in Hk by lia.
    replace (Z.of_nat (S k)) with (1 + Z.of_nat k) in * by lia.
    rewrite (sizeof_fmt_loop_unit n (52 - Z.log2 n) _ (proj1 Hn) ltac:(lia) 1 k);
      [reflexivity | lia | simpl; lia | exact Hk].
Qed.

End SizeofFmtExact.

Lemma sizeof_fmt_exact_witness :
  sizeof_fmt 18003 = "17.6 KiB" /\ sizeof_fmt 1048575 = "1024.0 KiB".
Proof.
  split.
  - rewrite (sizeof_fmt_exact 18003 1); [reflexivity | lia | vm_compute; split; congruence].
  - rewrite (sizeof_fmt_exact 1048575 1); [reflexivity | lia | vm_compute; split; congruence].
Defined.

Lemma run_follows_module_order_witness :
  exists module,
    nth_error (MODULES no_apt_host) 1 = Some module /\
    supported "darwin" module = false /\
    skip_notice (AptModule_class no_apt_host) "darwin" = skip_notice module "darwin".
Proof.
  apply (proj2 (proj2 (run_follows_module_order "darwin" (MODULES no_apt_host)))).
  assert (Htrace : fst (main "darwin" (MODULES no_apt_host))
                   = [EvGetData 0%nat ;
                      EvPrint 1 (skip_notice (AptModule_class no_apt_host) "darwin") ;
                      EvGetData 2%nat]) by (vm_compute; reflexivity).
  rewrite Htrace. right. left. reflexivity.
Defined.
